(** * ivs-suspiciousprocessmonitor: the crawl engine, the probes and the
      version scraper of [main.py]

    A shallow embedding of [crawl_website], [check_env_files],
    [check_admin_panels] and [get_installed_software_versions], and the
    properties of the design specification stated over it.

    The network and the libraries the program calls ([requests],
    [BeautifulSoup], [urllib.parse]) are not part of the program: they are
    gathered in a record [World], over which every general theorem is
    quantified.  Concrete stub worlds are built at the end of the
    definitions to run the program on explicit pages. *)

From Stdlib Require Import ZArith Ascii String List Bool Lia Sorted DecimalString.
From stdpp Require Import gmap strings list.

Local Open Scope string_scope.
Local Open Scope Z_scope.

(** ** Python strings

    A [str] is modelled by a [string] whose characters are the code points
    below 256. *)

Module PyStr.

(** [needle in hay] for two [str]. *)
Fixpoint contains (needle hay : string) : bool :=
  String.prefix needle hay ||
  match hay with
  | EmptyString => false
  | String _ hay' => contains needle hay'
  end.

(** [c in s] for a character [c]. *)
Fixpoint has_char (c : ascii) (s : string) : bool :=
  match s with
  | EmptyString => false
  | String a s' => Ascii.eqb a c || has_char c s'
  end.

Definition lower_char (c : ascii) : ascii :=
  let n := nat_of_ascii c in
  if ((65 <=? n)%nat && (n <=? 90)%nat)
     || ((192 <=? n)%nat && (n <=? 222)%nat && negb (n =? 215)%nat)
  then ascii_of_nat (n + 32) else c.

(** [s.lower()]. *)
Fixpoint lower (s : string) : string :=
  match s with
  | EmptyString => EmptyString
  | String c s' => String (lower_char c) (lower s')
  end.

(** [c.isspace()]. *)
Definition isspace (c : ascii) : bool :=
  let n := nat_of_ascii c in
  ((9 <=? n)%nat && (n <=? 13)%nat) || ((28 <=? n)%nat && (n <=? 32)%nat)
  || (n =? 133)%nat || (n =? 160)%nat.

Fixpoint lstrip (s : string) : string :=
  match s with
  | EmptyString => EmptyString
  | String c s' => if isspace c then lstrip s' else s
  end.

Fixpoint rstrip (s : string) : string :=
  match s with
  | EmptyString => EmptyString
  | String c s' =>
      match rstrip s' with
      | EmptyString => if isspace c then EmptyString else String c EmptyString
      | t => String c t
      end
  end.

(** [s.strip()]. *)
Definition strip (s : string) : string := rstrip (lstrip s).

(** [s.replace(c, "")] for a one-character [c]. *)
Fixpoint remove_char (c : ascii) (s : string) : string :=
  match s with
  | EmptyString => EmptyString
  | String a s' => if Ascii.eqb a c then remove_char c s' else String a (remove_char c s')
  end.

(** [s.split(c)] for a one-character separator: never empty. *)
Fixpoint split (c : ascii) (s : string) : list string :=
  match s with
  | EmptyString => [EmptyString]
  | String a s' =>
      if Ascii.eqb a c then EmptyString :: split c s'
      else match split c s' with
           | [] => [String a EmptyString]
           | t :: ts => String a t :: ts
           end
  end.

(** The line boundaries of [str.splitlines] other than the pair CR LF. *)
Definition is_linebreak (c : ascii) : bool :=
  let n := nat_of_ascii c in
  ((10 <=? n)%nat && (n <=? 13)%nat) || ((28 <=? n)%nat && (n <=? 30)%nat)
  || (n =? 133)%nat.

(** [s.splitlines()], [cur] being the line read so far. *)
Fixpoint splitlines_from (cur : string) (s : string) : list string :=
  match s with
  | EmptyString => match cur with EmptyString => [] | _ => [cur] end
  | String c s' =>
      if is_linebreak c then
        match s' with
        | String c' s'' =>
            if (nat_of_ascii c =? 13)%nat && (nat_of_ascii c' =? 10)%nat
            then cur :: splitlines_from EmptyString s''
            else cur :: splitlines_from EmptyString s'
        | EmptyString => [cur]
        end
      else splitlines_from (cur ++ String c EmptyString)%string s'
  end.

Definition splitlines (s : string) : list string := splitlines_from EmptyString s.

(** The double quote and the line feed, as one-character strings. *)
Definition dq : string := String (ascii_of_nat 34) EmptyString.
Definition lf : string := String (ascii_of_nat 10) EmptyString.

End PyStr.

(** ** The outside world *)

(** [requests.Response]: the two attributes the program reads. *)
Record Response := mkResponse { status_code : Z; text : string }.

(** The subclasses of [requests.exceptions.RequestException] that a GET
    followed by [raise_for_status] raises. *)
Inductive RequestException :=
| ConnectionError
| Timeout
| HTTPError (status : Z).

(** [urllib.parse.ParseResult], the components the specification speaks of. *)
Record ParseResult := mkParse { scheme : string; netloc : string }.

(** A [bs4] tag: its [attrs] dictionary.  The attributes the program reads
    ([name], [content]) have one string for value. *)
Record Tag := mkTag { attrs : gmap string string }.

Record World := mkWorld {
  (** [requests.get(url, timeout=5)], for the n-th request of the run:
      a response, or the exception raised. *)
  requests_get : nat -> string -> Response + RequestException;
  (** [link['href']] for [link] in
      [BeautifulSoup(text, 'html.parser').find_all('a', href=True)],
      in document order.  The parser raises [ParserRejectedMarkup] on a
      few markups (an unfinished declaration such as [<![x]>]); the model
      is of the pages on which it returns. *)
  find_all_a_href : string -> list string;
  (** [BeautifulSoup(text, 'html.parser').find_all('meta')], in document
      order, on the same pages. *)
  find_all_meta : string -> list Tag;
  (** [urljoin(base, url)] and [urlparse(url)].  [urllib] raises a
      [ValueError] on a few malformed authorities (an unbalanced bracket);
      the model is of the runs on which the two functions return. *)
  urljoin : string -> string -> string;
  urlparse : string -> ParseResult
}.

(** [response.raise_for_status()]: raises [HTTPError] for 4xx and 5xx. *)
Definition raise_for_status (r : Response) : unit + RequestException :=
  if (400 <=? status_code r) && (status_code r <? 600)
  then inr (HTTPError (status_code r))
  else inl tt.

(** [response = requests.get(u, timeout=5); response.raise_for_status()],
    the opening of every [try] block of the program. *)
Definition fetch (W : World) (n : nat) (u : string) : Response + RequestException :=
  match requests_get W n u with
  | inl r => match raise_for_status r with
             | inl _ => inl r
             | inr e => inr e
             end
  | inr e => inr e
  end.

(** ** The crawl engine *)

Module Crawl.

(** What the loop does, in order; the state of the crawl just before an
    [append] is recorded with it. *)
Inductive event :=
| EvDiscard (u : string) (d : Z)                 (* [continue], line 161 *)
| EvVisit (u : string) (d : Z)                   (* [visited.add], line 163 *)
| EvGet (u : string) (d : Z)                     (* [requests.get], line 167 *)
| EvEnqueue (u : string) (d : Z)                 (* [to_visit.append], line 175 *)
    (visited_before : gset string) (to_visit_before : list (string * Z)).

Record state := mkState {
  visited : gset string;
  to_visit : list (string * Z);
  clock : nat;                (* number of requests sent so far *)
  trace : list event
}.

Section Engine.
Variable W : World.
Variable url : string.
Variable depth : Z.

(** The [for link in soup.find_all('a', href=True)] loop. *)
Fixpoint expand (current_url : string) (current_depth : Z)
         (hrefs : list string) (st : state) : state :=
  match hrefs with
  | [] => st
  | href :: hrefs' =>
      let absolute_url := urljoin W current_url href in
      if String.eqb (netloc (urlparse W absolute_url)) (netloc (urlparse W url))
      then expand current_url current_depth hrefs'
             {| visited := visited st;
                to_visit := (to_visit st ++ [(absolute_url, current_depth + 1)])%list;
                clock := clock st;
                trace := (trace st ++
                  [EvEnqueue absolute_url (current_depth + 1)
                             (visited st) (to_visit st)])%list |}
      else expand current_url current_depth hrefs' st
  end.

(** The URLs the loop above appends: the links of the page, resolved
    against it, that pass the test of line 174. *)
Definition children (current_url : string) (hrefs : list string) : list string :=
  List.filter
    (fun u => String.eqb (netloc (urlparse W u)) (netloc (urlparse W url)))
    (List.map (urljoin W current_url) hrefs).

(** One turn of [while to_visit:]; [None] when the frontier is empty. *)
Definition step (st : state) : option state :=
  match to_visit st with
  | [] => None
  | (current_url, current_depth) :: rest =>
      if bool_decide (current_url ∈ visited st) || (depth <? current_depth)
      then Some {| visited := visited st; to_visit := rest; clock := clock st;
                   trace := (trace st ++ [EvDiscard current_url current_depth])%list |}
      else
        let st1 :=
          {| visited := visited st ∪ {[current_url]}; to_visit := rest;
             clock := S (clock st);
             trace := (trace st ++ [EvVisit current_url current_depth;
                                    EvGet current_url current_depth])%list |} in
        match fetch W (clock st) current_url with
        | inl response =>
            Some (expand current_url current_depth
                    (find_all_a_href W (text response)) st1)
        | inr _ => Some st1      (* [except RequestException]: logged *)
        end
  end.

(** The [while] loop, with a bound on the number of turns. *)
Fixpoint loop (fuel : nat) (st : state) : option state :=
  match fuel with
  | O => None
  | S fuel' =>
      match step st with
      | None => Some st
      | Some st' => loop fuel' st'
      end
  end.

Definition init : state :=
  {| visited := ∅; to_visit := [(url, 0)]; clock := O; trace := [] |}.

Definition run (fuel : nat) : option state := loop fuel init.

(** The three ways a turn of the loop can go. *)
Inductive turn (st st' : state) : Prop :=
| turn_discard u d rest :
    to_visit st = (u, d) :: rest ->
    u ∈ visited st \/ depth < d ->
    st' = {| visited := visited st; to_visit := rest; clock := clock st;
             trace := (trace st ++ [EvDiscard u d])%list |} ->
    turn st st'
| turn_failed u d rest e :
    to_visit st = (u, d) :: rest ->
    u ∉ visited st -> d <= depth ->
    fetch W (clock st) u = inr e ->
    st' = {| visited := visited st ∪ {[u]}; to_visit := rest;
             clock := S (clock st);
             trace := (trace st ++ [EvVisit u d; EvGet u d])%list |} ->
    turn st st'
| turn_fetched u d rest response :
    to_visit st = (u, d) :: rest ->
    u ∉ visited st -> d <= depth ->
    fetch W (clock st) u = inl response ->
    st' = expand u d (find_all_a_href W (text response))
            {| visited := visited st ∪ {[u]}; to_visit := rest;
               clock := S (clock st);
               trace := (trace st ++ [EvVisit u d; EvGet u d])%list |} ->
    turn st st'.

(** The states the loop goes through. *)
Inductive reachable : state -> Prop :=
| reach_init : reachable init
| reach_step st st' : reachable st -> step st = Some st' -> reachable st'.

(** The loop leaves from [st] after finitely many turns. *)
Inductive halts : state -> Prop :=
| halts_now st : step st = None -> halts st
| halts_later st st' : step st = Some st' -> halts st' -> halts st.

(** How many levels below [depth + 1] a pair of depth [d] stands. *)
Definition rank (d : Z) : nat := Z.to_nat (depth + 1 - d).

(** [crawl_website(url, depth)]: the set returned. *)
Definition crawl_website (fuel : nat) : option (gset string) :=
  visited <$> run fuel.

End Engine.

End Crawl.

(** ** Requests and exceptions

    The probes and the scraper send their requests one after the other and
    wrap them in [try ... except RequestException]; the scraper can also
    raise from a subscript.  They run in a state and error monad: the
    state is the list of the URLs requested so far, which an exception
    leaves as it is. *)

Module Py.

Inductive exn :=
| RequestExc (e : RequestException)    (* any [RequestException] *)
| KeyError (key : string)
| IndexError.

Inductive outcome (A : Type) :=
| Return (a : A)
| Raise (e : exn).
Arguments Return {A} a.
Arguments Raise {A} e.

Definition M (A : Type) : Type := list string -> list string * outcome A.

Definition ret {A} (a : A) : M A := fun s => (s, Return a).

Definition raise {A} (e : exn) : M A := fun s => (s, Raise e).

Definition bind {A B} (m : M A) (k : A -> M B) : M B :=
  fun s => match m s with
           | (s', Return a) => k a s'
           | (s', Raise e) => (s', Raise e)
           end.

(** [try: body / except requests.exceptions.RequestException: handler]. *)
Definition try_except {A} (body : M A) (handler : M A) : M A :=
  fun s => match body s with
           | (s', Raise (RequestExc _)) => handler s'
           | r => r
           end.

(** [response = requests.get(u, timeout=5); response.raise_for_status()]. *)
Definition get (W : World) (u : string) : M Response :=
  fun s => ((s ++ [u])%list,
            match fetch W (length s) u with
            | inl r => Return r
            | inr e => Raise (RequestExc e)
            end).

(** [tag[key]]. *)
Definition getitem (tag : Tag) (key : string) : M string :=
  match attrs tag !! key with
  | Some v => ret v
  | None => raise (KeyError key)
  end.

(** [l[i]]. *)
Definition index {A} (l : list A) (i : nat) : M A :=
  match nth_error l i with
  | Some x => ret x
  | None => raise IndexError
  end.

(** One candidate of a probe: split on what its fetch gives, [fact] telling
    what [requests.get] answered in each case. *)
Ltac probe_candidate fact W s u :=
  unfold bind, try_except, get, ret; simpl;
  pose proof (fact W (length s) u) as Hfetch;
  destruct (fetch W (length s) u) as [r|e];
  [destruct Hfetch as [-> Hok]; simpl in Hok; simpl; rewrite Hok; simpl
  |rewrite Hfetch; simpl].

End Py.

Notation "x <- m ;; k" := (Py.bind m (fun x => k))
  (at level 100, m at next level, right associativity).

(** ** The probe routines *)

Module Probe.
Import Py.

Definition env_paths : list string :=
  [".env"; ".env.example"; "config/.env"; "application/.env"].

(** The [for path in env_paths] loop. *)
Fixpoint env_loop (W : World) (url : string) (paths : list string)
         (found_env_files : list string) : M (list string) :=
  match paths with
  | [] => ret found_env_files
  | path :: paths' =>
      let env_url := urljoin W url path in
      found <- try_except
                 (response <- get W env_url ;;
                  if PyStr.contains "APP_KEY" (text response)
                  then ret (found_env_files ++ [env_url])%list
                  else ret found_env_files)
                 (ret found_env_files) ;;
      env_loop W url paths' found
  end.

Definition check_env_files (W : World) (url : string) : M (list string) :=
  env_loop W url env_paths [].

Definition admin_paths : list string :=
  ["admin"; "administrator"; "login"; "wp-admin"; "panel"].

(** The [for path in admin_paths] loop. *)
Fixpoint admin_loop (W : World) (url : string) (paths : list string)
         (found_admin_panels : list string) : M (list string) :=
  match paths with
  | [] => ret found_admin_panels
  | path :: paths' =>
      let admin_url := urljoin W url path in
      found <- try_except
                 (response <- get W admin_url ;;
                  if (status_code response =? 200) || (status_code response =? 403)
                  then ret (found_admin_panels ++ [admin_url])%list
                  else ret found_admin_panels)
                 (ret found_admin_panels) ;;
      admin_loop W url paths' found
  end.

Definition check_admin_panels (W : World) (url : string) : M (list string) :=
  admin_loop W url admin_paths [].

End Probe.

(** ** The version scraper *)

Module Scraper.
Import Py.

(** The first loop over [soup.find_all('meta')]. *)
Fixpoint generator_loop (metas : list Tag) (version_info : list string) : list string :=
  match metas with
  | [] => version_info
  | meta :: metas' =>
      match attrs meta !! "name" with
      | Some name =>
          if PyStr.contains "generator" (PyStr.lower name)
          then match attrs meta !! "content" with
               | Some content =>
                   generator_loop metas' (version_info ++ [("Generator: " ++ content)%string])%list
               | None => generator_loop metas' version_info
               end
          else generator_loop metas' version_info
      | None => generator_loop metas' version_info
      end
  end.

(** [soup.find("meta", {"name": "generator"})]: the first [meta] tag
    whose [name] is exactly [generator]. *)
Definition find_generator_tag (metas : list Tag) : option Tag :=
  List.find (fun t => match attrs t !! "name" with
                      | Some name => String.eqb name "generator"
                      | None => false
                      end) metas.

(** Lines 127 and 128: the version assigned in [version.php]. *)
Definition wp_version (body : string) : M string :=
  version_line <- index (List.filter (PyStr.contains "wp_version =")
                                     (PyStr.splitlines body)) 0 ;;
  value <- index (PyStr.split "=" version_line) 1 ;;
  ret (PyStr.strip (PyStr.remove_char "'" (PyStr.remove_char ";" (PyStr.strip value)))).

(** Lines 100 to 141.  The handlers of lines 131 and 139 catch the
    exceptions of [requests] only: the [KeyError] of line 119 leaves the
    function.  So would an exception of [BeautifulSoup] at line 103, on a
    markup that the parser rejects: the function is modelled on the pages
    that it parses (see [World]). *)
Definition get_installed_software_versions (W : World) (url : string)
  : M (list string) :=
  try_except
    (response <- get W url ;;
     let metas := find_all_meta W (text response) in
     let version_info := generator_loop metas [] in
     version_info <-
       (if PyStr.contains "wp-content" (text response) then
          let version_info := (version_info ++ ["WordPress site detected"])%list in
          version_info <-
            match find_generator_tag metas with
            | Some generator_tag =>
                content <- getitem generator_tag "content" ;;
                ret (version_info ++ [("WordPress Generator tag: " ++ content)%string])%list
            | None => ret version_info
            end ;;
          let version_php_url := urljoin W url "wp-includes/version.php" in
          try_except
            (version_php_response <- get W version_php_url ;;
             if PyStr.contains "wp_version =" (text version_php_response)
             then
               version <- wp_version (text version_php_response) ;;
               ret (version_info ++
                      [("WordPress Version from wp-includes/version.php: " ++ version)%string])%list
             else ret version_info)
            (ret version_info)
        else ret version_info) ;;
     match version_info with
     | [] => ret ["No version information found."]
     | _ => ret version_info
     end)
    (ret ["Error fetching page."]).

End Scraper.

(** ** What the specification says, in the terms of the model *)

Module Spec.
Import Crawl.

(** The authority of a URL: its scheme with its host and port. *)
Definition authority (W : World) (u : string) : string * string :=
  (scheme (urlparse W u), netloc (urlparse W u)).

(** The three conditions the data model puts on an enqueue. *)
Definition not_seen_before (ev : event) : Prop :=
  match ev with
  | EvEnqueue u _ visited_before to_visit_before =>
      (u ∉ (to_visit_before.*1)) /\ (u ∉ visited_before)
  | _ => True
  end.

Definition same_authority (W : World) (url : string) (ev : event) : Prop :=
  match ev with
  | EvEnqueue u _ _ _ => authority W u = authority W url
  | _ => True
  end.

Definition within_depth (depth : Z) (ev : event) : Prop :=
  match ev with
  | EvEnqueue _ d _ _ => d <= depth
  | _ => True
  end.

Definition enqueue_invariant (W : World) (url : string) (depth : Z) (ev : event) : Prop :=
  not_seen_before ev ∧ same_authority W url ev ∧ within_depth depth ev.

(** What line 174 and the test of line 160 give for an enqueue. *)
Definition enqueue_gate (W : World) (url : string) (depth : Z) (ev : event) : Prop :=
  match ev with
  | EvEnqueue u d _ _ =>
      netloc (urlparse W u) = netloc (urlparse W url) ∧ d <= depth + 1
  | _ => True
  end.

(** Events that fetch a URL or add it to the visited set, with the depth
    of the pair dequeued. *)
Definition processed_at (ev : event) : option (string * Z) :=
  match ev with
  | EvVisit u d | EvGet u d => Some (u, d)
  | _ => None
  end.

(** The candidates of a probe: each path resolved against the base URL,
    with what [requests.get] answers to the request sent for it, the
    requests being numbered from [n]. *)
Fixpoint candidates (W : World) (url : string) (n : nat) (paths : list string)
  : list (string * (Response + RequestException)) :=
  match paths with
  | [] => []
  | path :: paths' =>
      (urljoin W url path, requests_get W n (urljoin W url path))
        :: candidates W url (S n) paths'
  end.

(** The fetch of a candidate raises: no response, or a status that
    [raise_for_status] turns into an [HTTPError]. *)
Definition fetch_raises (a : Response + RequestException) : bool :=
  match a with
  | inl r => (400 <=? status_code r) && (status_code r <? 600)
  | inr _ => true
  end.

Definition status_is (a : Response + RequestException) (code : Z) : bool :=
  match a with
  | inl r => status_code r =? code
  | inr _ => false
  end.

Definition body_contains (a : Response + RequestException) (marker : string) : bool :=
  match a with
  | inl r => PyStr.contains marker (text r)
  | inr _ => false
  end.

(** An HTTP success status, as the specification says it: a response
    came, with a status of the class 2xx. *)
Definition http_success (a : Response + RequestException) : bool :=
  match a with
  | inl r => (200 <=? status_code r) && (status_code r <? 300)
  | inr _ => false
  end.

(** An exposed file in the words of the specification: an HTTP success
    status and a body that holds [APP_KEY]. *)
Definition env_hit_as_stated (a : Response + RequestException) : bool :=
  http_success a && body_contains a "APP_KEY".

(** An exposed file as the probe decides it: the fetch does not raise (a
    response came, with a status outside 400..599, be it 2xx or not) and
    the body holds [APP_KEY]. *)
Definition env_hit (a : Response + RequestException) : bool :=
  negb (fetch_raises a) && body_contains a "APP_KEY".

(** An admin panel: the fetch does not raise and the status is 200 or 403. *)
Definition admin_hit (a : Response + RequestException) : bool :=
  negb (fetch_raises a) && (status_is a 200 || status_is a 403).

(** The hits of a probe, in the order of the paths. *)
Definition hits (hit : Response + RequestException -> bool)
           (W : World) (url : string) (paths : list string) : list string :=
  (List.filter (fun c => hit c.2) (candidates W url O paths)).*1.

End Spec.

(** ** A small part of [urllib.parse], for the stub worlds *)

Module Url.

Definition is_alpha (c : ascii) : bool :=
  let n := nat_of_ascii c in
  ((65 <=? n)%nat && (n <=? 90)%nat) || ((97 <=? n)%nat && (n <=? 122)%nat).

Definition is_scheme_char (c : ascii) : bool :=
  let n := nat_of_ascii c in
  is_alpha c || ((48 <=? n)%nat && (n <=? 57)%nat)
  || (n =? 43)%nat || (n =? 45)%nat || (n =? 46)%nat.

Fixpoint all_chars (p : ascii -> bool) (s : string) : bool :=
  match s with
  | EmptyString => true
  | String c s' => p c && all_chars p s'
  end.

(** [url[:i]] and [url[i+1:]] for [i = url.find(':')]. *)
Fixpoint split_colon (url : string) : option (string * string) :=
  match url with
  | EmptyString => None
  | String c url' =>
      if Ascii.eqb c ":" then Some (EmptyString, url')
      else match split_colon url' with
           | Some (pre, post) => Some (String c pre, post)
           | None => None
           end
  end.

(** The scheme of [urlsplit], and what follows it. *)
Definition split_scheme (url : string) : string * string :=
  match split_colon url with
  | Some (String c pre, post) =>
      if is_alpha c && all_chars is_scheme_char pre
      then (PyStr.lower (String c pre), post)
      else (EmptyString, url)
  | _ => (EmptyString, url)
  end.

(** [_splitnetloc]: up to the first of [/], [?] and [#]. *)
Fixpoint take_netloc (s : string) : string :=
  match s with
  | EmptyString => EmptyString
  | String c s' =>
      if Ascii.eqb c "/" || Ascii.eqb c "?" || Ascii.eqb c "#" then EmptyString
      else String c (take_netloc s')
  end.

(** [urlparse(url)], for a URL without brackets in its host. *)
Definition urlparse (url : string) : ParseResult :=
  let (sch, rest) := split_scheme url in
  match rest with
  | String "/" (String "/" rest') => mkParse sch (take_netloc rest')
  | _ => mkParse sch EmptyString
  end.

(** What precedes the last [/], with it. *)
Fixpoint dirname (s : string) : string :=
  match s with
  | EmptyString => EmptyString
  | String c s' =>
      if PyStr.contains "/" s' then String c (dirname s')
      else if Ascii.eqb c "/" then "/" else EmptyString
  end.

(** [urljoin(base, ref)] in two cases: a reference with a scheme and a
    host is returned as it is; a reference made of plain path segments
    ([.env], [config/.env], [admin]) replaces what follows the last [/]
    of a base that has a path. *)
Definition urljoin (base ref : string) : string :=
  match split_scheme ref with
  | (EmptyString, _) => (dirname base ++ ref)%string
  | _ => ref
  end.

End Url.

(** ** Stub worlds *)

Module Stub.

Fixpoint assoc {A} (k : string) (table : list (string * A)) : option A :=
  match table with
  | [] => None
  | (k', v) :: table' => if String.eqb k k' then Some v else assoc k table'
  end.

(** A server that answers by URL, the same at every request, and refuses
    the connection for a URL it does not know; a parser given by the
    links and the [meta] tags of each body. *)
Definition world (pages : list (string * Response))
           (links : list (string * list string))
           (metas : list (string * list Tag)) : World :=
  {| requests_get := fun _ u =>
       match assoc u pages with
       | Some r => inl r
       | None => inr ConnectionError
       end;
     find_all_a_href := fun body => default [] (assoc body links);
     find_all_meta := fun body => default [] (assoc body metas);
     urljoin := Url.urljoin;
     urlparse := Url.urlparse |}.

(** A server that answers every request with the same status and body. *)
Definition constant (status : Z) (body : string) : World :=
  {| requests_get := fun _ _ => inl (mkResponse status body);
     find_all_a_href := fun _ => [];
     find_all_meta := fun _ => [];
     urljoin := Url.urljoin;
     urlparse := Url.urlparse |}.

(** An unreachable host. *)
Definition unreachable : World := world [] [] [].

(** A home page with a link to itself and two links to the same page
    over plain HTTP. *)
Definition home : string := "https://example.com/".
Definition plain : string := "http://example.com/x".
Definition home_body : string :=
  "<a href='https://example.com/'>home</a><a href='http://example.com/x'>x</a><a href='http://example.com/x'>x</a>".
Definition mixed_schemes : World :=
  world [(home, mkResponse 200 home_body)]
        [(home_body, [home; plain; plain])]
        [].

(** The crawl of that page with [depth = 0]: the enqueues, and the state
    the loop ends in. *)
Definition enqueue_home : Crawl.event :=
  Crawl.EvEnqueue home 1 {[home]} [].
Definition enqueue_plain : Crawl.event :=
  Crawl.EvEnqueue plain 1 {[home]} [(home, 1)].
Definition enqueue_plain_again : Crawl.event :=
  Crawl.EvEnqueue plain 1 {[home]} [(home, 1); (plain, 1)].
Definition mixed_final_0 : Crawl.state :=
  {| Crawl.visited := {[home]};
     Crawl.to_visit := [];
     Crawl.clock := 1;
     Crawl.trace :=
       [Crawl.EvVisit home 0; Crawl.EvGet home 0;
        enqueue_home; enqueue_plain; enqueue_plain_again;
        Crawl.EvDiscard home 1; Crawl.EvDiscard plain 1; Crawl.EvDiscard plain 1] |}.

(** Two pages that link to each other. *)
Definition ping : string := "http://example.com/ping".
Definition pong : string := "http://example.com/pong".
Definition cycle : World :=
  world [(ping, mkResponse 200 "<a href='pong'>pong</a>");
         (pong, mkResponse 200 "<a href='ping'>ping</a>")]
        [("<a href='pong'>pong</a>", ["pong"]);
         ("<a href='ping'>ping</a>", ["ping"])]
        [].

(** A [meta] tag with the given attributes. *)
Definition generator_tag (content : string) : Tag :=
  mkTag {[ "name" := "generator"; "content" := content ]}.
Definition bare_generator_tag : Tag :=
  mkTag {[ "name" := "generator" ]}.

(** A page with a generator tag and nothing of WordPress. *)
Definition site : string := "http://example.com/".
Definition generator_body : string :=
  "<meta name=" ++ PyStr.dq ++ "generator" ++ PyStr.dq ++ " content="
    ++ PyStr.dq ++ "WordPress 6.2" ++ PyStr.dq ++ ">".
Definition generator_page : World :=
  world [(site, mkResponse 200 generator_body)]
        []
        [(generator_body, [generator_tag "WordPress 6.2"])].

(** A WordPress page whose generator tag has no [content]. *)
Definition bare_body : string :=
  "<meta name='generator'><link rel='stylesheet' href='/wp-content/themes/a/style.css'>".
Definition bare_generator_page : World :=
  world [(site, mkResponse 200 bare_body)]
        []
        [(bare_body, [bare_generator_tag])].

(** A WordPress page with its [version.php]. *)
Definition wp_body : string := "<link href='/wp-content/a.css'>".
Definition version_php : string :=
  "<?php" ++ PyStr.lf ++ "$wp_version = '6.1.1';" ++ PyStr.lf
          ++ "$wp_db_version = 53496;" ++ PyStr.lf.
Definition wordpress : World :=
  world [(site, mkResponse 200 wp_body);
         ("http://example.com/wp-includes/version.php", mkResponse 200 version_php)]
        [] [].

(** A site with an exposed [.env] and an admin panel. *)
Definition exposed : World :=
  world [("http://example.com/.env", mkResponse 200 "APP_KEY=secret");
         ("http://example.com/admin", mkResponse 200 "login")]
        [] [].

End Stub.

(** ** Views of the trace of a crawl *)

Module TraceView.
Import Crawl.

(** The URLs requested, in the order of the requests. *)
Fixpoint requested (tr : list event) : list string :=
  match tr with
  | [] => []
  | EvGet u _ :: tr' => u :: requested tr'
  | _ :: tr' => requested tr'
  end.

(** The depths at which URLs were added to the visited set, in order. *)
Fixpoint visit_depths (tr : list event) : list Z :=
  match tr with
  | [] => []
  | EvVisit _ d :: tr' => d :: visit_depths tr'
  | _ :: tr' => visit_depths tr'
  end.

(** The pairs appended to the frontier, in order. *)
Fixpoint enqueued (tr : list event) : list (string * Z) :=
  match tr with
  | [] => []
  | EvEnqueue u d _ _ :: tr' => (u, d) :: enqueued tr'
  | _ :: tr' => enqueued tr'
  end.

(** The pairs taken off the frontier, in order: those dropped and those
    visited. *)
Fixpoint dequeued (tr : list event) : list (string * Z) :=
  match tr with
  | [] => []
  | EvDiscard u d :: tr' | EvVisit u d :: tr' => (u, d) :: dequeued tr'
  | _ :: tr' => dequeued tr'
  end.

(** The pairs visited, in order. *)
Fixpoint visits (tr : list event) : list (string * Z) :=
  match tr with
  | [] => []
  | EvVisit u d :: tr' => (u, d) :: visits tr'
  | _ :: tr' => visits tr'
  end.

End TraceView.

(** ** The link graph of a site *)

Module Graph.

(** The server answers a URL the same way at every request. *)
Definition steady (W : World) : Prop :=
  forall n u, requests_get W n u = requests_get W O u.

(** [u] is a link of the page [p], fetched with success, that passes the
    test of line 174 for the seed [url]. *)
Definition link (W : World) (url p u : string) : Prop :=
  exists response href,
    fetch W O p = inl response
    /\ In href (find_all_a_href W (text response))
    /\ u = urljoin W p href
    /\ netloc (urlparse W u) = netloc (urlparse W url).

(** [u] is at most [k] links away from the seed. *)
Inductive within (W : World) (url : string) : Z -> string -> Prop :=
| within_seed k : 0 <= k -> within W url k url
| within_link k p u :
    within W url k p -> link W url p u -> within W url (k + 1) u.

End Graph.

(** ** More stub worlds *)

Module Stubs.
Import Crawl.

(** The crawl of the two pages that link to each other, from [ping] with
    [depth = 5]: the state the loop ends in. *)
Definition cycle_final : state :=
  {| visited := {[Stub.ping]} ∪ {[Stub.pong]};
     to_visit := [];
     clock := 2;
     trace :=
       [EvVisit Stub.ping 0; EvGet Stub.ping 0;
        EvEnqueue Stub.pong 1 {[Stub.ping]} [];
        EvVisit Stub.pong 1; EvGet Stub.pong 1;
        EvEnqueue Stub.ping 2 ({[Stub.ping]} ∪ {[Stub.pong]}) [];
        EvDiscard Stub.ping 2] |}.

End Stubs.

(** ** The command line program

    [main], after [parse_args]: the arguments are given as a record.  The
    messages of [logging] go to another stream than the report and are left
    out; what [print] writes is kept line by line, with the stream it went
    to. *)

Module Main.
Import Py Crawl TraceView.

(** [s.rstrip(c)] for a one-character [c]. *)
Fixpoint rstrip_char (c : ascii) (s : string) : string :=
  match s with
  | EmptyString => EmptyString
  | String a s' =>
      match rstrip_char c s' with
      | EmptyString => if Ascii.eqb a c then EmptyString else String a EmptyString
      | t => String a t
      end
  end.

(** [str(n)] for a length. *)
Definition str_of_nat (n : nat) : string :=
  NilEmpty.string_of_uint (Nat.to_uint n).

(** The [Namespace] that [parse_args] returns. *)
Record Args := mkArgs {
  target_url : string;
  crawl_depth : Z;
  output_file : option string;
  verbose : bool
}.

(** [if output_file:] holds for a path that is not empty. *)
Definition output_path (args : Args) : option string :=
  match output_file args with
  | Some EmptyString => None
  | o => o
  end.

(** What the [except Exception] clause of [main] caught. *)
Inductive caught :=
| OpenFailed                    (* [open(output_file, "w")] raised *)
| Escaped (e : exn).            (* an exception left one of the routines *)

(** What a run of [main] leaves: the lines printed on the console, the
    file written with its lines, the URLs requested, whether the console
    stream was closed, and the exception caught, if any. *)
Record Report := mkReport {
  console : list string;
  file : option (string * list string);
  requests : list string;
  console_closed : bool;
  failure : option caught
}.

(** [for url in urls: print(f"- {url}")]. *)
Definition bullets (items : list string) : list string :=
  List.map (fun item => ("- " ++ item)%string) items.

(** Lines 205 to 237, the body of the [try] after the redirection: the
    lines printed, the URLs requested and the exception that ended it, if
    any.  The exceptions are those of the routines' own code; one raised
    by a library inside a routine (the parser at lines 103 and 169,
    [urljoin] at line 172) would end the [try] at that call in the same
    way, on inputs that [World] leaves out. *)
Definition scan (W : World) (target_url : string) (crawl_depth : Z) (fuel : nat)
  : option (list string * list string * option exn) :=
  match run W target_url crawl_depth fuel with
  | None => None
  | Some st =>
      let discovered_urls := visited st in
      let out :=
        [("Scanning " ++ target_url ++ "...")%string;
         (PyStr.lf ++ "Crawling website...")%string;
         ("Found " ++ str_of_nat (size discovered_urls)
                   ++ " URLs during crawling.")%string;
         (PyStr.lf ++ "Checking for .env files...")%string] in
      match Probe.check_env_files W target_url (requested (trace st)) with
      | (log, Raise e) => Some (out, log, Some e)
      | (log, Return env_files) =>
          let out :=
            (out ++ match env_files with
                    | [] => ["No exposed .env files found."]
                    | _ => "Potentially exposed .env files found:" :: bullets env_files
                    end
                 ++ [(PyStr.lf ++ "Checking for common admin panels...")%string])%list in
          match Probe.check_admin_panels W target_url log with
          | (log, Raise e) => Some (out, log, Some e)
          | (log, Return admin_panels) =>
              let out :=
                (out ++ match admin_panels with
                        | [] => ["No common admin panels found."]
                        | _ => "Potential admin panels found:" :: bullets admin_panels
                        end
                     ++ [(PyStr.lf ++ "Identifying software versions...")%string])%list in
              match Scraper.get_installed_software_versions W target_url log with
              | (log, Raise e) => Some (out, log, Some e)
              | (log, Return version_info) =>
                  Some ((out ++ "Software Version Information:"
                             :: bullets version_info)%list, log, None)
              end
          end
      end
  end.

(** [main()]: [can_open] tells whether [open(path, "w")] succeeds.  The
    [finally] clause closes [sys.stdout] whenever an output file was asked
    for: the file when it was opened, the console when [open] raised. *)
Definition main (W : World) (can_open : string -> bool) (args : Args) (fuel : nat)
  : option Report :=
  let target_url := rstrip_char "/" (target_url args) in
  match output_path args with
  | Some path =>
      if can_open path then
        match scan W target_url (crawl_depth args) fuel with
        | None => None
        | Some (out, log, e) =>
            Some {| console := []; file := Some (path, out); requests := log;
                    console_closed := false; failure := Escaped <$> e |}
        end
      else
        Some {| console := []; file := None; requests := [];
                console_closed := true; failure := Some OpenFailed |}
  | None =>
      match scan W target_url (crawl_depth args) fuel with
      | None => None
      | Some (out, log, e) =>
          Some {| console := out; file := None; requests := log;
                  console_closed := false; failure := Escaped <$> e |}
      end
  end.

End Main.

(** ** Stub hosts for the command line program *)

Module Stubs2.

(** [urljoin(base, ref)] as in [Url.urljoin], and for a base that has no
    path ([http://example.com]), where the reference comes after a [/]. *)
Definition join (base ref : string) : string :=
  match Url.split_scheme ref with
  | (EmptyString, _) =>
      match Url.split_scheme base with
      | (_, String "/" (String "/" rest)) =>
          if PyStr.has_char "/" rest then (Url.dirname base ++ ref)%string
          else (base ++ "/" ++ ref)%string
      | _ => (Url.dirname base ++ ref)%string
      end
  | _ => ref
  end.

(** A host out of reach: every request raises. *)
Definition out_of_reach : World :=
  {| requests_get := fun _ _ => inr ConnectionError;
     find_all_a_href := fun _ => [];
     find_all_meta := fun _ => [];
     urljoin := join;
     urlparse := Url.urlparse |}.

(** A WordPress site whose generator tag has no [content]: every URL of it
    answers with the same page. *)
Definition broken_wordpress : World :=
  {| requests_get := fun _ _ => inl (mkResponse 200 Stub.bare_body);
     find_all_a_href := fun _ => [];
     find_all_meta := fun _ => [Stub.bare_generator_tag];
     urljoin := join;
     urlparse := Url.urlparse |}.

Definition target : string := "http://example.com".

(** What the scan of that site prints and requests before the scraper
    raises. *)
Definition broken_lines : list string :=
  ["Scanning http://example.com...";
   (PyStr.lf ++ "Crawling website...")%string;
   "Found 1 URLs during crawling.";
   (PyStr.lf ++ "Checking for .env files...")%string;
   "No exposed .env files found.";
   (PyStr.lf ++ "Checking for common admin panels...")%string;
   "Potential admin panels found:";
   "- http://example.com/admin";
   "- http://example.com/administrator";
   "- http://example.com/login";
   "- http://example.com/wp-admin";
   "- http://example.com/panel";
   (PyStr.lf ++ "Identifying software versions...")%string].

Definition broken_requests : list string :=
  ["http://example.com";
   "http://example.com/.env"; "http://example.com/.env.example";
   "http://example.com/config/.env"; "http://example.com/application/.env";
   "http://example.com/admin"; "http://example.com/administrator";
   "http://example.com/login"; "http://example.com/wp-admin";
   "http://example.com/panel";
   "http://example.com"].

End Stubs2.

(** ** Version strings *)

Module Version.

(** A character of a plain version string: no white space, and none of the
    characters that lines 127 and 128 cut at or take off. *)
Definition version_char (c : ascii) : bool :=
  negb (PyStr.isspace c) && negb (Ascii.eqb c "=")
  && negb (Ascii.eqb c ";") && negb (Ascii.eqb c "'").

Definition plain (v : string) : bool := Url.all_chars version_char v.

(** The line of [version.php] that assigns the version [v]. *)
Definition assignment (v : string) : string :=
  ("$wp_version = '" ++ v ++ "';")%string.

(** What [lstrip] returns: the empty string, or a string that starts with
    a character that is no white space. *)
Definition clean_start (s : string) : Prop :=
  match s with
  | EmptyString => True
  | String c _ => PyStr.isspace c = false
  end.

End Version.

(** * Properties *)

(** ** Python strings *)

Module PyStrFacts.
Import PyStr.

Lemma prefix_empty (s : string) : String.prefix EmptyString s = true.
Proof. by destruct s. Qed.

Lemma append_cons (a : ascii) (s t : string) :
  (String a s ++ t)%string = String a (s ++ t).
Proof. reflexivity. Qed.

Lemma append_nil_r (s : string) : (s ++ "")%string = s.
Proof. induction s as [|a s IH]; [done|]. by rewrite append_cons, IH. Qed.

Lemma append_snoc (s t : string) (c : ascii) :
  ((s ++ String c "") ++ t)%string = (s ++ String c t)%string.
Proof. induction s as [|a s IH]; [done|]. by rewrite !append_cons, IH. Qed.

(** A prefix that does not hold [c] ends before the first [c]. *)
Lemma prefix_cut (K a b : string) (c : ascii) :
  has_char c K = false ->
  String.prefix K (a ++ String c b) = true -> String.prefix K a = true.
Proof.
  revert a. induction K as [|k K IH]; intros a HK; [intros _; apply prefix_empty|].
  simpl in HK. apply orb_false_iff in HK as [Hk HK].
  destruct a as [|x a]; simpl.
  - destruct (ascii_dec k c) as [->|_]; [|done].
    by rewrite Ascii.eqb_refl in Hk.
  - destruct (ascii_dec k x); [|done]. by apply IH.
Qed.

Lemma contains_cut (K a b : string) (c : ascii) :
  has_char c K = false ->
  contains K (a ++ String c b) = true ->
  contains K a = true \/ contains K b = true.
Proof.
  intros HK. induction a as [|x a IH]; simpl.
  - intros [Hp|Hb]%orb_true_iff; [|by right].
    left. destruct K as [|k K]; [done|]. simpl in *.
    destruct (ascii_dec k c) as [->|_]; [|done].
    by rewrite Ascii.eqb_refl in HK.
  - intros [Hp|Ha]%orb_true_iff.
    + left. apply orb_true_iff. left.
      by apply (prefix_cut K (String x a) b c).
    + destruct (IH Ha) as [Hin|Hin]; [left|by right].
      apply orb_true_iff. by right.
Qed.

Lemma prefix_has_char (K s : string) (c : ascii) :
  String.prefix K s = true -> has_char c K = true -> has_char c s = true.
Proof.
  revert s. induction K as [|k K IH]; intros s; [done|].
  destruct s as [|x s]; simpl; [done|].
  destruct (ascii_dec k x) as [->|_]; [|done].
  intros Hp [Hx|HK]%orb_true_iff; apply orb_true_iff; [by left|right].
  by apply IH.
Qed.

Lemma contains_has_char (K s : string) (c : ascii) :
  contains K s = true -> has_char c K = true -> has_char c s = true.
Proof.
  intros Hin HK. induction s as [|x s IH]; simpl in *.
  - destruct K; simpl in *; congruence.
  - apply orb_true_iff in Hin as [Hp|Hin].
    + by apply (prefix_has_char K (String x s)).
    + apply orb_true_iff. right. by apply IH.
Qed.

(** [s.split(c)] has a second element when [c] is in [s]. *)
Lemma split_second (c : ascii) (s : string) :
  has_char c s = true -> exists x y rest, split c s = x :: y :: rest.
Proof.
  induction s as [|a s IH]; simpl; [done|].
  destruct (Ascii.eqb a c); simpl.
  - intros _. destruct s as [|b s]; simpl; [by eauto|].
    destruct (Ascii.eqb b c); [by eauto|].
    destruct (split c s); eauto.
  - intros (x & y & rest & ->)%IH. eauto.
Qed.

(** A text without line boundary, found in a body, is found in one of its
    lines. *)
Lemma splitlines_from_keeps (K : string) (n : nat) :
  (forall c, is_linebreak c = true -> has_char c K = false) ->
  K <> EmptyString ->
  forall s cur,
    (String.length s <= n)%nat ->
    contains K (cur ++ s) = true ->
    exists line, In line (splitlines_from cur s) /\ contains K line = true.
Proof.
  intros HK Hne.
  assert (Hempty : contains K EmptyString = false).
  { destruct K; [done|]. reflexivity. }
  induction n as [|n IH]; intros s cur Hlen Hin.
  - destruct s; [|simpl in Hlen; lia]. simpl.
    rewrite append_nil_r in Hin.
    destruct cur; [congruence|]. exists (String a cur). split; [by left|done].
  - destruct s as [|c s].
    { apply (IH EmptyString cur); [simpl; lia|done]. }
    simpl in Hlen. simpl. destruct (is_linebreak c) eqn:Hc.
    + destruct (contains_cut K cur s c (HK c Hc) Hin) as [Hcur|Hs].
      { exists cur. split; [|done].
        destruct s as [|c' s]; [by left|]. destruct (_ && _); by left. }
      destruct s as [|c' s]; [congruence|].
      destruct ((nat_of_ascii c =? 13)%nat && (nat_of_ascii c' =? 10)%nat) eqn:Hcrlf.
      * assert (Hc' : is_linebreak c' = true).
        { apply andb_true_iff in Hcrlf as [_ Hlf%Nat.eqb_eq].
          unfold is_linebreak. by rewrite Hlf. }
        destruct (contains_cut K EmptyString s c' (HK c' Hc') Hs) as [Hs'|Hs'];
          [congruence|].
        destruct (IH s EmptyString) as (line & Hline & Hfound);
          [simpl in Hlen; lia|done|].
        exists line. split; [by right|done].
      * destruct (IH (String c' s) EmptyString) as (line & Hline & Hfound);
          [lia|done|].
        exists line. split; [by right|done].
    + apply IH; [lia|]. by rewrite append_snoc.
Qed.

Lemma splitlines_keeps (K body : string) :
  (forall c, is_linebreak c = true -> has_char c K = false) ->
  K <> EmptyString ->
  contains K body = true ->
  exists line, In line (splitlines body) /\ contains K line = true.
Proof.
  intros HK Hne Hin.
  by apply (splitlines_from_keeps K (String.length body) HK Hne body EmptyString).
Qed.

End PyStrFacts.

(** ** The loop of the crawl engine *)

Module CrawlFacts.
Import Crawl.

Section Loop.
Variable W : World.
Variable url : string.
Variable depth : Z.

Implicit Types (st : state) (cu u : string) (cd d : Z) (hrefs : list string).

(** *** The inner loop *)

Lemma expand_visited cu cd hrefs st :
  visited (expand W url cu cd hrefs st) = visited st.
Proof.
  revert st. induction hrefs as [|href hrefs IH]; intros st; simpl; [done|].
  destruct (String.eqb _ _); rewrite IH; done.
Qed.

Lemma expand_clock cu cd hrefs st :
  clock (expand W url cu cd hrefs st) = clock st.
Proof.
  revert st. induction hrefs as [|href hrefs IH]; intros st; simpl; [done|].
  destruct (String.eqb _ _); rewrite IH; done.
Qed.

Lemma expand_to_visit cu cd hrefs st :
  to_visit (expand W url cu cd hrefs st)
  = (to_visit st ++ List.map (fun u => (u, cd + 1)) (children W url cu hrefs))%list.
Proof.
  revert st. induction hrefs as [|href hrefs IH]; intros st; simpl.
  - by rewrite app_nil_r.
  - unfold children. simpl.
    destruct (String.eqb _ _); rewrite IH; simpl; [|done].
    by rewrite <- app_assoc.
Qed.

Lemma children_in_scope cu hrefs :
  Forall (fun u => netloc (urlparse W u) = netloc (urlparse W url))
         (children W url cu hrefs).
Proof.
  apply List.Forall_forall. intros u Hu. apply filter_In in Hu as [_ Hu].
  by apply String.eqb_eq.
Qed.

(** Every event the inner loop adds is an enqueue, at the depth after the
    current one, of a URL that passed the test of line 174. *)
Lemma expand_trace (P : event -> Prop) cu cd hrefs st :
  (forall u V q, netloc (urlparse W u) = netloc (urlparse W url) ->
                 P (EvEnqueue u (cd + 1) V q)) ->
  Forall P (trace st) -> Forall P (trace (expand W url cu cd hrefs st)).
Proof.
  intros HP. revert st.
  induction hrefs as [|href hrefs IH]; intros st Hst; simpl; [done|].
  destruct (String.eqb _ _) eqn:E; apply IH; simpl; [|done].
  apply Forall_app. split; [done|]. apply Forall_singleton, HP.
  by apply String.eqb_eq.
Qed.

Lemma expand_trace_grows cu cd hrefs st :
  exists evs, trace (expand W url cu cd hrefs st) = (trace st ++ evs)%list.
Proof.
  revert st. induction hrefs as [|href hrefs IH]; intros st; simpl.
  - exists []. by rewrite app_nil_r.
  - destruct (String.eqb _ _); [|apply IH].
    edestruct IH as [evs Hevs]. rewrite Hevs. simpl.
    rewrite <- app_assoc. eauto.
Qed.

(** *** One turn of the outer loop *)

Lemma step_turn st st' : step W url depth st = Some st' -> turn W url depth st st'.
Proof.
  unfold step. destruct (to_visit st) as [|[u d] rest] eqn:Eq; [done|].
  destruct (bool_decide (u ∈ visited st)) eqn:Ev.
  - simpl. intros [= <-]. eapply turn_discard; eauto.
    left. by apply bool_decide_eq_true in Ev.
  - apply bool_decide_eq_false in Ev. simpl.
    destruct (depth <? d) eqn:Ed.
    + intros [= <-]. eapply turn_discard; eauto. right. lia.
    + destruct (fetch W (clock st) u) as [response|e] eqn:Ef; intros [= <-].
      * eapply turn_fetched; eauto. lia.
      * eapply turn_failed; eauto. lia.
Qed.

Lemma step_none st : step W url depth st = None <-> to_visit st = [].
Proof.
  unfold step. destruct (to_visit st) as [|[u d] rest]; [done|].
  split; [|done].
  destruct (_ || _); [done|]. by destruct (fetch _ _ _).
Qed.

(** What a turn adds to the trace: a discard, or a visit and a request at
    a depth within the bound, followed by enqueues that passed line 174 at a
    depth at most one beyond the bound. *)
Lemma turn_trace (P : event -> Prop) st st' :
  (forall u d, P (EvDiscard u d)) ->
  (forall u d, d <= depth -> P (EvVisit u d) /\ P (EvGet u d)) ->
  (forall u d V q, netloc (urlparse W u) = netloc (urlparse W url) ->
                   d <= depth + 1 -> P (EvEnqueue u d V q)) ->
  turn W url depth st st' -> Forall P (trace st) -> Forall P (trace st').
Proof.
  intros Hdiscard Hvisit Henqueue Hturn Hst.
  destruct Hturn as [u d rest _ _ ->|u d rest e _ _ Hd _ ->|u d rest r _ _ Hd _ ->].
  - simpl. apply Forall_app. split; [done|]. by apply Forall_singleton.
  - simpl. apply Forall_app. split; [done|].
    destruct (Hvisit u d Hd). by repeat constructor.
  - apply expand_trace.
    + intros. apply Henqueue; [done|lia].
    + simpl. apply Forall_app. split; [done|].
      destruct (Hvisit u d Hd). by repeat constructor.
Qed.

Lemma turn_trace_grows st st' :
  turn W url depth st st' -> exists evs, trace st' = (trace st ++ evs)%list.
Proof.
  intros [u d rest _ _ ->|u d rest e _ _ _ _ ->|u d rest r _ _ _ _ ->];
    simpl; eauto.
  edestruct expand_trace_grows as [evs ->]. simpl.
  rewrite <- app_assoc. eauto.
Qed.

Lemma turn_visited_grows st st' :
  turn W url depth st st' -> visited st ⊆ visited st'.
Proof.
  intros [u d rest _ _ ->|u d rest e _ _ _ _ ->|u d rest r _ _ _ _ ->];
    rewrite ?expand_visited; simpl; set_solver.
Qed.

(** *** Invariants of the states the loop goes through *)

Lemma reachable_ind_turn (I : state -> Prop) :
  I (init url) ->
  (forall st st', I st -> turn W url depth st st' -> I st') ->
  forall st, reachable W url depth st -> I st.
Proof.
  intros Hinit Hturn st Hst. induction Hst as [|st st' _ IH Hstep]; [done|].
  eapply Hturn; [exact IH|]. by apply step_turn.
Qed.

Lemma reachable_trace (P : event -> Prop) st :
  (forall u d, P (EvDiscard u d)) ->
  (forall u d, d <= depth -> P (EvVisit u d) /\ P (EvGet u d)) ->
  (forall u d V q, netloc (urlparse W u) = netloc (urlparse W url) ->
                   d <= depth + 1 -> P (EvEnqueue u d V q)) ->
  reachable W url depth st -> Forall P (trace st).
Proof.
  intros Hdiscard Hvisit Henqueue. revert st.
  apply reachable_ind_turn; [constructor|].
  intros st st' Hst Hturn. by eapply turn_trace.
Qed.

(** Every URL of the visited set and of the frontier passed line 174, the
    seed apart. *)
Lemma reachable_in_scope st :
  reachable W url depth st ->
  (forall u, u ∈ visited st -> netloc (urlparse W u) = netloc (urlparse W url))
  /\ Forall (fun p => netloc (urlparse W p.1) = netloc (urlparse W url)) (to_visit st).
Proof.
  revert st. apply reachable_ind_turn.
  - split; [set_solver|]. by repeat constructor.
  - intros st st' [Hv Hq] Hturn.
    destruct Hturn as [u d rest Eq _ ->|u d rest e Eq _ _ _ ->|u d rest r Eq _ _ _ ->];
      rewrite Eq in Hq; apply Forall_cons in Hq as [Hu Hrest]; simpl in Hu.
    + done.
    + split; [|done]. simpl. intros u' [?| ->%elem_of_singleton]%elem_of_union; auto.
    + rewrite expand_visited, expand_to_visit. simpl. split.
      * intros u' [?| ->%elem_of_singleton]%elem_of_union; auto.
      * apply Forall_app. split; [done|].
        apply Forall_map. simpl. apply children_in_scope.
Qed.

(** Every URL of the visited set was added by a turn that dequeued it at a
    depth within the bound. *)
Lemma reachable_visited_trace st :
  reachable W url depth st ->
  forall u, u ∈ visited st -> exists d, d <= depth /\ In (EvVisit u d) (trace st).
Proof.
  revert st.
  apply (reachable_ind_turn
           (fun st => forall u, u ∈ visited st ->
                        exists d, d <= depth /\ In (EvVisit u d) (trace st)));
    [set_solver|].
  intros st st' IH Hturn u Hu.
  destruct (turn_trace_grows _ _ Hturn) as [evs Hevs].
  assert (Hold : u ∈ visited st -> exists d, d <= depth /\ In (EvVisit u d) (trace st')).
  { intros Hin. destruct (IH u Hin) as (d & Hd & Hev). exists d. split; [done|].
    rewrite Hevs. apply in_or_app. by left. }
  destruct Hturn as [u0 d rest _ _ ->|u0 d rest e _ _ Hd _ ->|u0 d rest r _ _ Hd _ ->].
  - by apply Hold.
  - simpl in Hu. apply elem_of_union in Hu as [?| ->%elem_of_singleton]; [by apply Hold|].
    exists d. split; [done|]. simpl. apply in_or_app. right. by left.
  - rewrite expand_visited in Hu. simpl in Hu.
    apply elem_of_union in Hu as [?| ->%elem_of_singleton]; [by apply Hold|].
    exists d. split; [done|].
    edestruct expand_trace_grows as [evs' ->]. simpl.
    apply in_or_app. left. apply in_or_app. right. by left.
Qed.

(** *** The bounded loop *)

Lemma loop_reachable fuel st st' :
  loop W url depth fuel st = Some st' ->
  reachable W url depth st -> reachable W url depth st' /\ to_visit st' = [].
Proof.
  revert st. induction fuel as [|fuel IH]; intros st; simpl; [done|].
  destruct (step W url depth st) as [st1|] eqn:E.
  - intros Hloop Hst. apply (IH st1 Hloop). by eapply reach_step.
  - intros [= <-] Hst. split; [done|]. by apply step_none in E.
Qed.

Lemma loop_more_fuel fuel fuel' st st' :
  loop W url depth fuel st = Some st' -> (fuel <= fuel')%nat ->
  loop W url depth fuel' st = Some st'.
Proof.
  revert fuel' st. induction fuel as [|fuel IH]; intros fuel' st; simpl; [done|].
  intros Hloop Hle. destruct fuel' as [|fuel']; [lia|]. simpl.
  destruct (step W url depth st); [|done]. apply IH; [done|lia].
Qed.

Lemma loop_deterministic fuel1 fuel2 st st1 st2 :
  loop W url depth fuel1 st = Some st1 -> loop W url depth fuel2 st = Some st2 ->
  st1 = st2.
Proof.
  intros H1 H2.
  apply (loop_more_fuel _ (fuel1 `max` fuel2)) in H1; [|lia].
  apply (loop_more_fuel _ (fuel1 `max` fuel2)) in H2; [|lia].
  congruence.
Qed.

Lemma halts_loop st :
  halts W url depth st -> exists fuel st', loop W url depth fuel st = Some st'.
Proof.
  induction 1 as [st Hnone|st st1 Hstep _ (fuel & st' & IH)].
  - exists 1%nat, st. simpl. by rewrite Hnone.
  - exists (S fuel), st'. simpl. by rewrite Hstep.
Qed.

(** *** Termination

    A pair of rank 0 is dropped when it is dequeued; a pair of rank [S n]
    leaves, at most, pairs of rank [n] at the back of the frontier. *)

Lemma rank_zero d : rank depth d = O -> (depth <? d) = true.
Proof. unfold rank. lia. Qed.

Lemma rank_child d n : (rank depth d <= S n)%nat -> (rank depth (d + 1) <= n)%nat.
Proof. unfold rank. lia. Qed.

Lemma halts_rank_zero q V c tr :
  Forall (fun p => rank depth p.2 = O) q ->
  halts W url depth {| visited := V; to_visit := q; clock := c; trace := tr |}.
Proof.
  revert tr. induction q as [|[u d] q IH]; intros tr Hq.
  - by apply halts_now.
  - apply Forall_cons in Hq as [Hd Hq]. simpl in Hd.
    eapply halts_later; [|by apply IH].
    unfold step. simpl. by rewrite (rank_zero _ Hd), orb_true_r.
Qed.

Lemma halts_rank_step n :
  (forall q V c tr, Forall (fun p => (rank depth p.2 <= n)%nat) q ->
     halts W url depth {| visited := V; to_visit := q; clock := c; trace := tr |}) ->
  forall q low V c tr,
    Forall (fun p => (rank depth p.2 <= S n)%nat) q ->
    Forall (fun p => (rank depth p.2 <= n)%nat) low ->
    halts W url depth
      {| visited := V; to_visit := (q ++ low)%list; clock := c; trace := tr |}.
Proof.
  intros IHn q. induction q as [|[u d] q IH]; intros low V c tr Hq Hlow.
  - by apply IHn.
  - apply Forall_cons in Hq as [Hd Hq]. simpl in Hd.
    destruct (step W url depth
                {| visited := V; to_visit := ((u, d) :: q ++ low)%list;
                   clock := c; trace := tr |}) as [st'|] eqn:Hstep;
      [|by apply halts_now].
    eapply halts_later; [exact Hstep|].
    apply step_turn in Hstep.
    destruct Hstep as [u0 d0 rest [= <- <- <-] _ ->
                      |u0 d0 rest e [= <- <- <-] _ _ _ ->
                      |u0 d0 rest r [= <- <- <-] _ _ _ ->].
    + by apply IH.
    + by apply IH.
    + match goal with
      | |- halts _ _ _ ?st =>
          replace st with
            {| visited := visited st; to_visit := to_visit st;
               clock := clock st; trace := trace st |} by (by destruct st)
      end.
      rewrite expand_to_visit. simpl. rewrite <- app_assoc.
      apply IH; [done|]. apply Forall_app. split; [done|].
      apply Forall_map, Forall_forall. intros u' _. simpl. by apply rank_child.
Qed.

Lemma halts_rank n q V c tr :
  Forall (fun p => (rank depth p.2 <= n)%nat) q ->
  halts W url depth {| visited := V; to_visit := q; clock := c; trace := tr |}.
Proof.
  revert q V c tr. induction n as [|n IHn]; intros q V c tr Hq.
  - apply halts_rank_zero. eapply Forall_impl; [exact Hq|]. simpl. lia.
  - rewrite <- (app_nil_r q). by apply (halts_rank_step n).
Qed.

Lemma halts_init : halts W url depth (init url).
Proof.
  apply (halts_rank (rank depth 0)). by repeat constructor.
Qed.

Lemma loop_visited_grows fuel st st' :
  loop W url depth fuel st = Some st' -> visited st ⊆ visited st'.
Proof.
  revert st. induction fuel as [|fuel IH]; intros st; simpl; [done|].
  destruct (step W url depth st) as [st1|] eqn:E; [|by intros [= <-]].
  intros Hloop. etrans; [|by apply IH].
  by apply turn_visited_grows, step_turn.
Qed.

(** The first turn, when the bound is not negative: the seed is added. *)
Lemma first_turn_adds_seed st :
  0 <= depth -> step W url depth (init url) = Some st -> url ∈ visited st.
Proof.
  intros Hdepth. unfold step, init. simpl.
  replace (bool_decide (url ∈ (∅ : gset string))) with false
    by (symmetry; apply bool_decide_eq_false; set_solver).
  replace (depth <? 0) with false by lia. simpl.
  destruct (fetch W 0 url); intros [= <-];
    rewrite ?expand_visited; simpl; set_solver.
Qed.

(** The loop started on the seed ends, and more turns allowed change
    nothing. *)
Lemma run_ends :
  exists fuel st,
    forall fuel', (fuel <= fuel')%nat -> run W url depth fuel' = Some st.
Proof.
  destruct (halts_loop _ halts_init) as (fuel & st & Hloop).
  exists fuel, st. intros fuel' Hle. by apply (loop_more_fuel fuel).
Qed.

End Loop.
End CrawlFacts.

(** ** The crawl engine: the properties of the specification *)

Module CrawlClaims.
Import Crawl CrawlFacts.

(** C1, as the specification states it, does not hold.  On a page that
    links to itself and twice to the same page over plain HTTP, crawled
    with [depth = 0], the three enqueues break each of the three conditions:
    the first is of a URL already visited, the third of a URL already in the
    frontier, the second and third of a URL whose scheme is not the seed's,
    and all of them are at depth 1, beyond the bound. *)
Lemma enqueue_invariant_fails :
  run Stub.mixed_schemes Stub.home 0 5 = Some Stub.mixed_final_0
  /\ ~ Spec.not_seen_before Stub.enqueue_home
  /\ ~ Spec.not_seen_before Stub.enqueue_plain_again
  /\ ~ Spec.same_authority Stub.mixed_schemes Stub.home Stub.enqueue_plain
  /\ ~ Spec.within_depth 0 Stub.enqueue_home
  /\ ~ (forall fuel st,
          run Stub.mixed_schemes Stub.home 0 fuel = Some st ->
          Forall (Spec.enqueue_invariant Stub.mixed_schemes Stub.home 0) (trace st)).
Proof.
  assert (Hrun : run Stub.mixed_schemes Stub.home 0 5 = Some Stub.mixed_final_0)
    by (vm_compute; reflexivity).
  assert (Hdepth : ~ Spec.within_depth 0 Stub.enqueue_home) by (simpl; lia).
  repeat split; try done.
  - intros [_ Hnew]. apply Hnew. set_solver.
  - intros [Hnew _]. apply Hnew. simpl. set_solver.
  - intros Hall. specialize (Hall _ _ Hrun). apply Hdepth.
    eapply (proj1 (List.Forall_forall _ _)) in Hall as (_ & _ & Hd); [exact Hd|].
    simpl. tauto.
Qed.

(** C1, amended: every pair the loop appends to the frontier holds a URL
    whose [netloc] is the seed's, at a depth at most [depth + 1]; whether
    the URL was enqueued or visited before is not looked at. *)
Theorem enqueue_gate_holds (W : World) (url : string) (depth : Z)
        (fuel : nat) (st : state) :
  run W url depth fuel = Some st ->
  Forall (Spec.enqueue_gate W url depth) (trace st).
Proof.
  intros Hrun. apply loop_reachable in Hrun as [Hst _]; [|constructor].
  revert Hst. apply reachable_trace; simpl; auto.
Qed.

Lemma enqueue_gate_holds_witness :
  Forall (Spec.enqueue_gate Stub.mixed_schemes Stub.home 0)
         (trace Stub.mixed_final_0).
Proof.
  apply (enqueue_gate_holds Stub.mixed_schemes Stub.home 0 5 Stub.mixed_final_0).
  vm_compute. reflexivity.
Defined.

(** C2, as the specification states it, does not hold: crawled with
    [depth = 1], the same page gives a result that holds the plain HTTP URL,
    whose scheme is not the seed's. *)
Lemma result_authority_fails :
  exists r,
    crawl_website Stub.mixed_schemes Stub.home 1 5 = Some r
    /\ Stub.plain ∈ r
    /\ scheme (urlparse Stub.mixed_schemes Stub.plain) = "http"
    /\ scheme (urlparse Stub.mixed_schemes Stub.home) = "https"
    /\ Spec.authority Stub.mixed_schemes Stub.plain
       <> Spec.authority Stub.mixed_schemes Stub.home.
Proof.
  exists ({[Stub.home]} ∪ {[Stub.plain]}).
  split; [vm_compute; reflexivity|].
  split; [set_solver|]. done.
Qed.

(** C2, amended: every URL of the set returned has the [netloc] (host and
    port) of the seed; the scheme is not compared. *)
Theorem result_same_netloc (W : World) (url : string) (depth : Z)
        (fuel : nat) (r : gset string) (u : string) :
  crawl_website W url depth fuel = Some r ->
  u ∈ r ->
  netloc (urlparse W u) = netloc (urlparse W url).
Proof.
  unfold crawl_website, run.
  destruct (loop W url depth fuel (init url)) as [st|] eqn:Hloop; [|done].
  intros [= <-] Hu.
  apply loop_reachable in Hloop as [Hst _]; [|constructor].
  by apply (reachable_in_scope _ _ _ _ Hst).
Qed.

Lemma result_same_netloc_witness :
  netloc (urlparse Stub.mixed_schemes Stub.plain)
  = netloc (urlparse Stub.mixed_schemes Stub.home).
Proof.
  apply (result_same_netloc Stub.mixed_schemes Stub.home 1 5
           ({[Stub.home]} ∪ {[Stub.plain]}) Stub.plain).
  - vm_compute. reflexivity.
  - apply (bool_decide_unpack _). vm_compute. exact I.
Defined.

(** C3: a pair dequeued at a depth beyond the bound is dropped, the visited
    set, the number of requests sent and the rest of the frontier being left
    as they were; and in every crawl, each request and each addition to the
    visited set is for a pair dequeued at a depth within the bound, each URL
    of the result having been added so. *)
Theorem beyond_depth_dropped (W : World) (url : string) (depth : Z) :
  (forall st u d rest,
      to_visit st = (u, d) :: rest -> depth < d ->
      step W url depth st
      = Some {| visited := visited st; to_visit := rest; clock := clock st;
                trace := (trace st ++ [EvDiscard u d])%list |})
  /\ (forall fuel st,
        run W url depth fuel = Some st ->
        (forall ev u d,
            In ev (trace st) -> Spec.processed_at ev = Some (u, d) -> d <= depth)
        /\ (forall u, u ∈ visited st ->
                      exists d, d <= depth /\ In (EvVisit u d) (trace st))).
Proof.
  split.
  - intros st u d rest Eq Hd. unfold step. rewrite Eq.
    replace (depth <? d) with true by lia. by rewrite orb_true_r.
  - intros fuel st Hrun. apply loop_reachable in Hrun as [Hst _]; [|constructor].
    split; [|by apply (reachable_visited_trace W url depth)].
    intros ev u d Hev Hproc.
    assert (Hall : Forall (fun ev => forall u d,
                             Spec.processed_at ev = Some (u, d) -> d <= depth)
                          (trace st)).
    { revert Hst. apply reachable_trace; simpl; try done.
      intros u' d' Hd'. split; by intros ? ? [= _ <-]. }
    eapply (proj1 (List.Forall_forall _ _)) in Hall; eauto.
Qed.

(** C4: the crawl ends, whatever the pages link to: some number of turns
    empties the frontier, and any larger bound on the turns gives the same
    set. *)
Theorem crawl_terminates (W : World) (url : string) (depth : Z) :
  exists fuel r,
    forall fuel', (fuel <= fuel')%nat -> crawl_website W url depth fuel' = Some r.
Proof.
  destruct (run_ends W url depth) as (fuel & st & Hrun).
  exists fuel, (visited st). intros fuel' Hle. unfold crawl_website.
  by rewrite (Hrun fuel' Hle).
Qed.

(** C5: when the bound is not negative the crawl returns a set, and the
    set holds the seed, whatever the requests answer. *)
Theorem seed_in_result (W : World) (url : string) (depth : Z) :
  0 <= depth ->
  (exists fuel r, crawl_website W url depth fuel = Some r)
  /\ (forall fuel r, crawl_website W url depth fuel = Some r -> url ∈ r).
Proof.
  intros Hdepth. split.
  - destruct (run_ends W url depth) as (fuel & st & Hrun).
    exists fuel, (visited st). unfold crawl_website. by rewrite (Hrun fuel).
  - intros fuel r. unfold crawl_website, run.
    destruct fuel as [|fuel]; simpl; [done|].
    destruct (step W url depth (init url)) as [st1|] eqn:Hstep.
    + destruct (loop W url depth fuel st1) as [st|] eqn:Hloop; [|done].
      intros [= <-]. apply (loop_visited_grows _ _ _ _ _ _ Hloop).
      by apply (first_turn_adds_seed W url depth).
    + by apply step_none in Hstep.
Qed.

Lemma seed_in_result_witness :
  (exists fuel r, crawl_website Stub.unreachable Stub.site 0 fuel = Some r)
  /\ (forall fuel r,
        crawl_website Stub.unreachable Stub.site 0 fuel = Some r -> Stub.site ∈ r).
Proof.
  apply (seed_in_result Stub.unreachable Stub.site 0). lia.
Defined.

(** C10: with a negative bound the seed is dropped at the first turn and
    the crawl returns the empty set, no request having been sent. *)
Theorem negative_depth_empty (W : World) (url : string) (depth : Z) (fuel : nat) :
  depth < 0 -> (2 <= fuel)%nat ->
  run W url depth fuel
  = Some {| visited := ∅; to_visit := []; clock := 0; trace := [EvDiscard url 0] |}
  /\ crawl_website W url depth fuel = Some ∅.
Proof.
  intros Hdepth Hfuel.
  assert (Hrun : run W url depth 2
                 = Some {| visited := ∅; to_visit := []; clock := 0;
                           trace := [EvDiscard url 0] |}).
  { unfold run, init, loop, step. simpl.
    replace (depth <? 0) with true by lia. by rewrite orb_true_r. }
  apply (loop_more_fuel _ _ _ _ fuel) in Hrun; [|done].
  split; [done|]. unfold crawl_website, run. by rewrite Hrun.
Qed.

Lemma negative_depth_empty_witness :
  run Stub.cycle Stub.ping (-1) 2
  = Some {| visited := ∅; to_visit := []; clock := 0;
            trace := [EvDiscard Stub.ping 0] |}
  /\ crawl_website Stub.cycle Stub.ping (-1) 2 = Some ∅.
Proof.
  apply (negative_depth_empty Stub.cycle Stub.ping (-1) 2); lia.
Defined.

(** Two pages that link to each other: the crawl ends with both. *)
Example crawl_cycle :
  crawl_website Stub.cycle Stub.ping 5 8 = Some ({[Stub.ping]} ∪ {[Stub.pong]}).
Proof. vm_compute. reflexivity. Qed.

End CrawlClaims.

(** ** The probe routines *)

Module ProbeFacts.
Import Py Probe.

(** [fetch] against what the specification calls a fetch that raises. *)
Lemma fetch_spec (W : World) (n : nat) (u : string) :
  match fetch W n u with
  | inl r => requests_get W n u = inl r /\ Spec.fetch_raises (inl r) = false
  | inr _ => Spec.fetch_raises (requests_get W n u) = true
  end.
Proof.
  unfold fetch, raise_for_status. destruct (requests_get W n u) as [r|e]; [|done].
  simpl. destruct ((400 <=? status_code r) && (status_code r <? 600)) eqn:E; auto.
Qed.

Section Loops.
Variable W : World.
Variable url : string.

Lemma env_loop_spec (paths found s : list string) :
  env_loop W url paths found s
  = ((s ++ List.map (urljoin W url) paths)%list,
     Return (found ++ (List.filter (fun c => Spec.env_hit c.2)
                                   (Spec.candidates W url (length s) paths)).*1)%list).
Proof.
  revert found s. induction paths as [|path paths IH]; intros found s; simpl.
  - by rewrite !app_nil_r.
  - unfold Spec.env_hit at 1.
    probe_candidate fetch_spec W s (urljoin W url path).
    + destruct (PyStr.contains "APP_KEY" (text r)); simpl;
        rewrite IH, length_app, Nat.add_1_r, <- !app_assoc; done.
    + rewrite IH, length_app, Nat.add_1_r, <- !app_assoc; done.
Qed.

Lemma admin_loop_spec (paths found s : list string) :
  admin_loop W url paths found s
  = ((s ++ List.map (urljoin W url) paths)%list,
     Return (found ++ (List.filter (fun c => Spec.admin_hit c.2)
                                   (Spec.candidates W url (length s) paths)).*1)%list).
Proof.
  revert found s. induction paths as [|path paths IH]; intros found s; simpl.
  - by rewrite !app_nil_r.
  - unfold Spec.admin_hit at 1.
    probe_candidate fetch_spec W s (urljoin W url path).
    + destruct ((status_code r =? 200) || (status_code r =? 403)); simpl;
        rewrite IH, length_app, Nat.add_1_r, <- !app_assoc; done.
    + rewrite IH, length_app, Nat.add_1_r, <- !app_assoc; done.
Qed.

End Loops.

(** A response with status 403 makes [raise_for_status] raise: the test of
    line 87 never sees it, and it is not a hit. *)
Lemma admin_hit_403 (r : Response) :
  status_code r = 403 -> Spec.admin_hit (inl r) = false.
Proof. intros H. unfold Spec.admin_hit. simpl. by rewrite H. Qed.

Lemma admin_hit_200 (r : Response) :
  status_code r = 200 -> Spec.admin_hit (inl r) = true.
Proof. intros H. unfold Spec.admin_hit. simpl. by rewrite H. Qed.

Lemma env_hit_200 (r : Response) :
  status_code r = 200 -> PyStr.contains "APP_KEY" (text r) = true ->
  Spec.env_hit (inl r) = true.
Proof. intros H Hkey. unfold Spec.env_hit. simpl. by rewrite H, Hkey. Qed.

End ProbeFacts.

Module ProbeClaims.
Import Py Probe ProbeFacts.

(** C7: the admin-panel probe requests the five paths in order and returns,
    in that order, the resolved URLs whose fetch did not raise and whose
    status is 200 or 403, whatever the other paths answered; a status 200 at
    [admin] is a hit, and a status 404 at every path gives no hit. *)
Theorem admin_panels_exact (W : World) (url : string) :
  check_admin_panels W url []
  = (List.map (urljoin W url) admin_paths,
     Return (Spec.hits Spec.admin_hit W url admin_paths))
  /\ (forall r, requests_get W 0 (urljoin W url "admin") = inl r ->
                status_code r = 200 ->
                exists others,
                  check_admin_panels W url []
                  = (List.map (urljoin W url) admin_paths,
                     Return (urljoin W url "admin" :: others)))
  /\ ((forall n u, exists r, requests_get W n u = inl r /\ status_code r = 404) ->
      check_admin_panels W url []
      = (List.map (urljoin W url) admin_paths, Return [])).
Proof.
  assert (Hexact : check_admin_panels W url []
                   = (List.map (urljoin W url) admin_paths,
                      Return (Spec.hits Spec.admin_hit W url admin_paths)))
    by apply admin_loop_spec.
  split; [done|]. rewrite Hexact. split.
  - intros r Hr H200. unfold Spec.hits. simpl.
    rewrite Hr, (admin_hit_200 r H200). simpl. eauto.
  - intros H404. unfold Spec.hits. simpl.
    repeat match goal with
    | |- context [requests_get W ?n ?u] =>
        let r := fresh "r" in let Hr := fresh "Hr" in let Hs := fresh "Hs" in
        destruct (H404 n u) as (r & Hr & Hs); rewrite Hr;
        unfold Spec.admin_hit at 1; simpl; rewrite Hs; simpl
    end.
    done.
Qed.

Lemma admin_panels_exact_witness :
  check_admin_panels Stub.exposed Stub.site []
  = (["http://example.com/admin"; "http://example.com/administrator";
      "http://example.com/login"; "http://example.com/wp-admin";
      "http://example.com/panel"],
     Return ["http://example.com/admin"])
  /\ check_admin_panels (Stub.constant 404 "Not Found") Stub.site []
     = (List.map (Url.urljoin Stub.site) admin_paths, Return []).
Proof.
  destruct (admin_panels_exact Stub.exposed Stub.site) as (Hexact & _ & _).
  destruct (admin_panels_exact (Stub.constant 404 "Not Found") Stub.site)
    as (_ & _ & H404).
  split.
  - rewrite Hexact. vm_compute. reflexivity.
  - apply H404. intros n u. exists (mkResponse 404 "Not Found"). simpl. done.
Defined.

(** C8, as the specification states it, does not hold: the probe does not
    look for a success status, it only lets [raise_for_status] raise on
    4xx and 5xx.  A server that answers every path with status 301 (a
    redirection without a [Location], which [requests] hands over as it
    is) and the body [APP_KEY=secret] has its four URLs reported, and so
    has one that answers with the status 600; neither is an HTTP success
    status. *)
Lemma exposed_files_success_fails :
  check_env_files (Stub.constant 301 "APP_KEY=secret") Stub.site []
  = (["http://example.com/.env"; "http://example.com/.env.example";
      "http://example.com/config/.env"; "http://example.com/application/.env"],
     Return ["http://example.com/.env"; "http://example.com/.env.example";
             "http://example.com/config/.env";
             "http://example.com/application/.env"])
  /\ Spec.hits Spec.env_hit_as_stated (Stub.constant 301 "APP_KEY=secret")
               Stub.site env_paths = []
  /\ check_env_files (Stub.constant 600 "APP_KEY=secret") Stub.site []
     = (["http://example.com/.env"; "http://example.com/.env.example";
         "http://example.com/config/.env"; "http://example.com/application/.env"],
        Return ["http://example.com/.env"; "http://example.com/.env.example";
                "http://example.com/config/.env";
                "http://example.com/application/.env"])
  /\ Spec.hits Spec.env_hit_as_stated (Stub.constant 600 "APP_KEY=secret")
               Stub.site env_paths = []
  /\ ~ (forall (W : World) (url : string),
          check_env_files W url []
          = (List.map (urljoin W url) env_paths,
             Return (Spec.hits Spec.env_hit_as_stated W url env_paths))).
Proof.
  assert (H301 : check_env_files (Stub.constant 301 "APP_KEY=secret") Stub.site []
                 = (List.map (Url.urljoin Stub.site) env_paths,
                    Return (List.map (Url.urljoin Stub.site) env_paths)))
    by (vm_compute; reflexivity).
  repeat split; try (vm_compute; reflexivity).
  intros Hall. rewrite (Hall (Stub.constant 301 "APP_KEY=secret") Stub.site) in H301.
  vm_compute in H301. discriminate H301.
Qed.

(** C8, amended: the exposed-file probe requests the four paths [.env],
    [.env.example], [config/.env] and [application/.env] in that order and
    returns, in that order, the resolved URLs whose fetch did not raise (a
    response came, with a status outside 400..599) and whose body holds
    [APP_KEY], whatever the other paths answered; an exception skips the
    path and nothing is raised to the caller.  A status 200 with
    [APP_KEY] in the body at [.env] is a hit, and a status 404 at every
    path gives no hit. *)
Theorem exposed_files_exact (W : World) (url : string) :
  check_env_files W url []
  = ([urljoin W url ".env"; urljoin W url ".env.example";
      urljoin W url "config/.env"; urljoin W url "application/.env"],
     Return (Spec.hits Spec.env_hit W url
               [".env"; ".env.example"; "config/.env"; "application/.env"]))
  /\ (forall r, requests_get W 0 (urljoin W url ".env") = inl r ->
                status_code r = 200 ->
                PyStr.contains "APP_KEY" (text r) = true ->
                exists others,
                  check_env_files W url []
                  = ([urljoin W url ".env"; urljoin W url ".env.example";
                      urljoin W url "config/.env"; urljoin W url "application/.env"],
                     Return (urljoin W url ".env" :: others)))
  /\ ((forall n u, exists r, requests_get W n u = inl r /\ status_code r = 404) ->
      check_env_files W url []
      = ([urljoin W url ".env"; urljoin W url ".env.example";
          urljoin W url "config/.env"; urljoin W url "application/.env"],
         Return [])).
Proof.
  assert (Hexact : check_env_files W url []
                   = ([urljoin W url ".env"; urljoin W url ".env.example";
                       urljoin W url "config/.env"; urljoin W url "application/.env"],
                      Return (Spec.hits Spec.env_hit W url
                                [".env"; ".env.example"; "config/.env";
                                 "application/.env"])))
    by apply env_loop_spec.
  split; [done|]. rewrite Hexact. split.
  - intros r Hr H200 Hkey. unfold Spec.hits. simpl.
    rewrite Hr, (env_hit_200 r H200 Hkey). simpl. eauto.
  - intros H404. unfold Spec.hits. simpl.
    repeat match goal with
    | |- context [requests_get W ?n ?u] =>
        let r := fresh "r" in let Hr := fresh "Hr" in let Hs := fresh "Hs" in
        destruct (H404 n u) as (r & Hr & Hs); rewrite Hr;
        unfold Spec.env_hit at 1; simpl; rewrite Hs; simpl
    end.
    done.
Qed.

Lemma exposed_files_exact_witness :
  check_env_files Stub.exposed Stub.site []
  = (["http://example.com/.env"; "http://example.com/.env.example";
      "http://example.com/config/.env"; "http://example.com/application/.env"],
     Return ["http://example.com/.env"])
  /\ check_env_files (Stub.constant 404 "APP_KEY=secret") Stub.site []
     = (["http://example.com/.env"; "http://example.com/.env.example";
         "http://example.com/config/.env"; "http://example.com/application/.env"],
        Return []).
Proof.
  destruct (exposed_files_exact Stub.exposed Stub.site) as (Hexact & _ & _).
  destruct (exposed_files_exact (Stub.constant 404 "APP_KEY=secret") Stub.site)
    as (_ & _ & H404).
  split.
  - rewrite Hexact. vm_compute. reflexivity.
  - apply H404. intros n u. exists (mkResponse 404 "APP_KEY=secret"). simpl. done.
Defined.

(** The stub server of the specification: [APP_KEY=secret] with status 200
    at [.env]; and status 404 at every path. *)
Example exposed_env_file :
  check_env_files Stub.exposed Stub.site []
  = (List.map (Url.urljoin Stub.site) env_paths, Return ["http://example.com/.env"]).
Proof. vm_compute. reflexivity. Qed.

Example no_env_file :
  check_env_files (Stub.constant 404 "APP_KEY") Stub.site []
  = (List.map (Url.urljoin Stub.site) env_paths, Return []).
Proof. vm_compute. reflexivity. Qed.

(** A server that answers 403 everywhere: no admin panel is reported. *)
Example forbidden_is_no_hit :
  check_admin_panels (Stub.constant 403 "Forbidden") Stub.site []
  = (List.map (Url.urljoin Stub.site) admin_paths, Return []).
Proof. vm_compute. reflexivity. Qed.

End ProbeClaims.

(** ** The version scraper *)

Module ScraperFacts.
Import Py Scraper.

(** On a page that holds [wp-content], a first [meta] tag named
    [generator] without a [content] attribute makes the subscript of line
    119 raise, and no handler of the function catches a [KeyError]. *)
Lemma missing_content_raises (W : World) (url : string)
      (response : Response) (tag : Tag) :
  fetch W 0 url = inl response ->
  PyStr.contains "wp-content" (text response) = true ->
  find_generator_tag (find_all_meta W (text response)) = Some tag ->
  attrs tag !! "content" = None ->
  get_installed_software_versions W url [] = ([url], Raise (KeyError "content")).
Proof.
  intros Hfetch Hwp Htag Hcontent.
  unfold get_installed_software_versions, try_except, bind, get, getitem, raise.
  simpl. rewrite Hfetch, Hwp, Htag, Hcontent. done.
Qed.

(** Without [wp-content] in the page a single request is sent, and the
    findings are those of the first loop. *)
Lemma plain_page_findings (W : World) (url : string) (response : Response) :
  fetch W 0 url = inl response ->
  PyStr.contains "wp-content" (text response) = false ->
  get_installed_software_versions W url []
  = ([url],
     Return match generator_loop (find_all_meta W (text response)) [] with
            | [] => ["No version information found."]
            | version_info => version_info
            end).
Proof.
  intros Hfetch Hwp.
  unfold get_installed_software_versions, try_except, bind, get, ret.
  simpl. rewrite Hfetch, Hwp.
  by destruct (generator_loop _ _).
Qed.

(** The marker searched in [version.php] holds no line boundary. *)
Lemma marker_no_linebreak (c : ascii) :
  PyStr.is_linebreak c = true -> PyStr.has_char c "wp_version =" = false.
Proof.
  intros H. destruct c as [[] [] [] [] [] [] [] []];
    (reflexivity || discriminate H).
Qed.

(** Lines 127 and 128 raise nothing: when the body holds the marker, one
    of its lines holds it, and that line has a second part after [=]. *)
Lemma wp_version_returns (body : string) :
  PyStr.contains "wp_version =" body = true ->
  exists version, forall s, wp_version body s = (s, Return version).
Proof.
  intros Hin.
  destruct (PyStrFacts.splitlines_keeps _ body marker_no_linebreak
              ltac:(discriminate) Hin) as (line & Hline & Hfound).
  unfold wp_version, bind, index, ret.
  destruct (List.filter _ _) as [|first others] eqn:Hfilter.
  - exfalso. assert (Hnone : In line []); [|done].
    rewrite <- Hfilter. apply filter_In. done.
  - assert (Hfirst : PyStr.contains "wp_version =" first = true).
    { assert (Hin' : In first (first :: others)) by (by left).
      rewrite <- Hfilter in Hin'. by apply filter_In in Hin' as [_ ?]. }
    apply (PyStrFacts.contains_has_char _ _ "=") in Hfirst; [|done].
    apply PyStrFacts.split_second in Hfirst as (x & y & rest & Hsplit).
    simpl. rewrite Hsplit. simpl. eauto.
Qed.

(** On a page that the parser accepts, the scraper returns or raises the
    [KeyError] of line 119. *)
Lemma scraper_outcome (W : World) (url : string) (s : list string) :
  exists log,
    (exists findings,
        get_installed_software_versions W url s = (log, Return findings))
    \/ get_installed_software_versions W url s = (log, Raise (KeyError "content")).
Proof.
  unfold get_installed_software_versions, try_except, bind, get, getitem, raise, ret.
  simpl. destruct (fetch W (length s) url) as [response|e]; [|by eauto].
  destruct (PyStr.contains "wp-content" (text response)).
  - set (version_info := (generator_loop _ [] ++ ["WordPress site detected"])%list).
    assert (Hne : forall version_info', (version_info ++ version_info')%list <> []).
    { intros l. subst version_info. rewrite <- app_assoc.
      intros [_ [=]]%app_eq_nil. }
    destruct (find_generator_tag _) as [tag|].
    + destruct (attrs tag !! "content") as [content|]; [|by eauto].
      destruct (fetch W _ _) as [r|e].
      * destruct (PyStr.contains "wp_version =" (text r)) eqn:Hmarker.
        -- destruct (wp_version_returns _ Hmarker) as (version & ->).
           rewrite <- app_assoc.
           destruct (version_info ++ _)%list eqn:E; [by apply Hne in E|by eauto].
        -- destruct (version_info ++ _)%list eqn:E; [by apply Hne in E|by eauto].
      * destruct (version_info ++ _)%list eqn:E; [by apply Hne in E|by eauto].
    + destruct (fetch W _ _) as [r|e].
      * destruct (PyStr.contains "wp_version =" (text r)) eqn:Hmarker.
        -- destruct (wp_version_returns _ Hmarker) as (version & ->).
           destruct (version_info ++ _)%list eqn:E; [by apply Hne in E|by eauto].
        -- destruct version_info; by eauto.
      * destruct version_info; by eauto.
  - destruct (generator_loop _ _); by eauto.
Qed.

End ScraperFacts.

Module ScraperClaims.
Import Py Scraper ScraperFacts.

(** C6 fails on the code: a WordPress page whose generator tag has no
    [content] attribute makes [get_installed_software_versions] raise a
    [KeyError], which leaves the function. *)
Theorem bare_generator_tag_raises :
  get_installed_software_versions Stub.bare_generator_page Stub.site []
  = ([Stub.site], Raise (KeyError "content")).
Proof.
  apply (missing_content_raises _ _ (mkResponse 200 Stub.bare_body)
                                Stub.bare_generator_tag);
    vm_compute; reflexivity.
Qed.

(** C9: on a page fetched with success, whose only [meta] tag is
    [<meta name="generator" content="WordPress 6.2">] and which does not
    hold [wp-content], the scraper returns the single finding
    [Generator: WordPress 6.2], having sent the one request for the page. *)
Theorem generator_only_page (W : World) (url : string) (response : Response) :
  fetch W 0 url = inl response ->
  find_all_meta W (text response) = [Stub.generator_tag "WordPress 6.2"] ->
  PyStr.contains "wp-content" (text response) = false ->
  exists finding,
    get_installed_software_versions W url [] = ([url], Return [finding])
    /\ finding = "Generator: WordPress 6.2"
    /\ PyStr.contains "WordPress 6.2" finding = true.
Proof.
  intros Hfetch Hmeta Hwp. exists "Generator: WordPress 6.2".
  split; [|done].
  rewrite (plain_page_findings W url response Hfetch Hwp), Hmeta.
  vm_compute. reflexivity.
Qed.

Lemma generator_only_page_witness :
  exists finding,
    get_installed_software_versions Stub.generator_page Stub.site []
    = ([Stub.site], Return [finding])
    /\ finding = "Generator: WordPress 6.2"
    /\ PyStr.contains "WordPress 6.2" finding = true.
Proof.
  apply (generator_only_page Stub.generator_page Stub.site
           (mkResponse 200 Stub.generator_body));
    vm_compute; reflexivity.
Defined.

(** The version assigned in [version.php] is read with its quotes and its
    semicolon taken off. *)
Example wordpress_version :
  get_installed_software_versions Stub.wordpress Stub.site []
  = ([Stub.site; "http://example.com/wp-includes/version.php"],
     Return ["WordPress site detected";
             "WordPress Version from wp-includes/version.php: 6.1.1"]).
Proof. vm_compute. reflexivity. Qed.

(** An unreachable host gives the single finding of the handler. *)
Example unreachable_host :
  get_installed_software_versions Stub.unreachable Stub.site []
  = ([Stub.site], Return ["Error fetching page."]).
Proof. vm_compute. reflexivity. Qed.

End ScraperClaims.

(** ** The crawl engine: further properties *)

Module CrawlMore.
Import Crawl CrawlFacts TraceView.

Lemma requested_app (tr1 tr2 : list event) :
  requested (tr1 ++ tr2) = (requested tr1 ++ requested tr2)%list.
Proof.
  induction tr1 as [|ev tr1 IH]; [done|]. destruct ev; simpl; by rewrite ?IH.
Qed.

Lemma visit_depths_app (tr1 tr2 : list event) :
  visit_depths (tr1 ++ tr2) = (visit_depths tr1 ++ visit_depths tr2)%list.
Proof.
  induction tr1 as [|ev tr1 IH]; [done|]. destruct ev; simpl; by rewrite ?IH.
Qed.

Lemma enqueued_app (tr1 tr2 : list event) :
  enqueued (tr1 ++ tr2) = (enqueued tr1 ++ enqueued tr2)%list.
Proof.
  induction tr1 as [|ev tr1 IH]; [done|]. destruct ev; simpl; by rewrite ?IH.
Qed.

Lemma dequeued_app (tr1 tr2 : list event) :
  dequeued (tr1 ++ tr2) = (dequeued tr1 ++ dequeued tr2)%list.
Proof.
  induction tr1 as [|ev tr1 IH]; [done|]. destruct ev; simpl; by rewrite ?IH.
Qed.

Lemma visits_app (tr1 tr2 : list event) :
  visits (tr1 ++ tr2) = (visits tr1 ++ visits tr2)%list.
Proof.
  induction tr1 as [|ev tr1 IH]; [done|]. destruct ev; simpl; by rewrite ?IH.
Qed.

Lemma visit_depths_visits (tr : list event) :
  visit_depths tr = (visits tr).*2.
Proof.
  induction tr as [|ev tr IH]; [done|]. destruct ev; simpl; by rewrite ?IH.
Qed.

Section Views.
Variable W : World.
Variable url : string.
Variable depth : Z.

Implicit Types (st : state) (cu u : string) (cd d : Z) (hrefs : list string).

(** The inner loop adds enqueues only: one for each pair it appends. *)
Lemma expand_views cu cd hrefs st :
  requested (trace (expand W url cu cd hrefs st)) = requested (trace st)
  /\ visit_depths (trace (expand W url cu cd hrefs st)) = visit_depths (trace st)
  /\ enqueued (trace (expand W url cu cd hrefs st))
     = (enqueued (trace st)
          ++ List.map (fun u => (u, cd + 1)) (children W url cu hrefs))%list.
Proof.
  revert st. induction hrefs as [|href hrefs IH]; intros st; simpl.
  - by rewrite app_nil_r.
  - unfold children. simpl. destruct (String.eqb _ _).
    + destruct (IH {| visited := visited st;
                      to_visit := (to_visit st ++ [(urljoin W cu href, cd + 1)])%list;
                      clock := clock st;
                      trace := (trace st ++ [EvEnqueue (urljoin W cu href) (cd + 1)
                                               (visited st) (to_visit st)])%list |})
        as (-> & -> & ->).
      simpl. rewrite requested_app, visit_depths_app, enqueued_app. simpl.
      rewrite !app_nil_r, <- app_assoc. done.
    + apply IH.
Qed.

Lemma expand_dequeued cu cd hrefs st :
  dequeued (trace (expand W url cu cd hrefs st)) = dequeued (trace st).
Proof.
  revert st. induction hrefs as [|href hrefs IH]; intros st; simpl; [done|].
  destruct (String.eqb _ _); rewrite IH; [|done].
  simpl. rewrite dequeued_app. simpl. by rewrite app_nil_r.
Qed.

(** *** First in, first out *)

Lemma reachable_fifo st :
  reachable W url depth st ->
  (dequeued (trace st) ++ to_visit st)%list = (url, 0) :: enqueued (trace st).
Proof.
  revert st. apply reachable_ind_turn; [done|].
  intros st st' IH Hturn.
  destruct Hturn as [u d rest Eq _ ->|u d rest e Eq _ _ _ ->|u d rest r Eq _ _ _ ->];
    rewrite Eq in IH.
  - simpl. rewrite dequeued_app, enqueued_app. simpl.
    by rewrite app_nil_r, <- app_assoc.
  - simpl. rewrite dequeued_app, enqueued_app. simpl.
    by rewrite app_nil_r, <- app_assoc.
  - rewrite expand_dequeued, expand_to_visit.
    destruct (expand_views u d (find_all_a_href W (text r))
                {| visited := visited st ∪ {[u]}; to_visit := rest;
                   clock := S (clock st);
                   trace := (trace st ++ [EvVisit u d; EvGet u d])%list |})
      as (_ & _ & ->).
    simpl. rewrite dequeued_app, enqueued_app. simpl.
    rewrite app_nil_r, app_comm_cons, <- IH. by rewrite <- !app_assoc.
Qed.

(** *** One request for each URL of the visited set *)

Lemma reachable_requests st :
  reachable W url depth st ->
  NoDup (requested (trace st))
  /\ visited st = list_to_set (requested (trace st))
  /\ clock st = length (requested (trace st)).
Proof.
  revert st.
  apply (reachable_ind_turn W url depth
           (fun st => NoDup (requested (trace st))
                      /\ visited st = list_to_set (requested (trace st))
                      /\ clock st = length (requested (trace st)))).
  - split; [constructor|]. split; [set_solver|done].
  - intros st st' (Hnodup & Hset & Hclock) Hturn.
    assert (Hnew : forall u d,
               u ∉ visited st ->
               NoDup (requested (trace st ++ [EvVisit u d; EvGet u d]))
               /\ visited st ∪ {[u]}
                  = list_to_set (requested (trace st ++ [EvVisit u d; EvGet u d]))
               /\ S (clock st)
                  = length (requested (trace st ++ [EvVisit u d; EvGet u d]))).
    { intros u d Hu. rewrite requested_app. simpl. split; [|split].
      - apply NoDup_app. split; [done|]. split; [|apply NoDup_singleton].
        intros x Hx ->%list_elem_of_singleton. apply Hu. rewrite Hset.
        by apply elem_of_list_to_set.
      - rewrite list_to_set_app_L, <- Hset. simpl. by rewrite union_empty_r_L.
      - rewrite length_app, <- Hclock. simpl. lia. }
    destruct Hturn as [u d rest _ _ ->|u d rest e _ Hu _ _ ->|u d rest r _ Hu _ _ ->].
    + simpl. rewrite requested_app. simpl. by rewrite app_nil_r.
    + simpl. by apply Hnew.
    + destruct (expand_views u d (find_all_a_href W (text r))
                  {| visited := visited st ∪ {[u]}; to_visit := rest;
                     clock := S (clock st);
                     trace := (trace st ++ [EvVisit u d; EvGet u d])%list |})
        as (-> & _ & _).
      rewrite expand_visited, expand_clock. simpl. by apply Hnew.
Qed.

(** *** Breadth first *)

Lemma sorted_snoc (l : list Z) (x : Z) :
  StronglySorted Z.le l -> Forall (fun y => y <= x) l ->
  StronglySorted Z.le (l ++ [x]).
Proof.
  induction 1 as [|y l Hl IH Hy]; intros Hx; simpl.
  - by repeat constructor.
  - apply Forall_cons in Hx as [Hyx Hx]. constructor; [by apply IH|].
    apply Forall_app. split; [done|]. by apply Forall_singleton.
Qed.

(** The frontier holds pairs of one depth [L] followed by pairs of depth
    [L + 1]; no visit so far was deeper than [L]. *)
Lemma reachable_levels st :
  reachable W url depth st ->
  exists L q1 q2,
    to_visit st = (q1 ++ q2)%list
    /\ Forall (fun p => p.2 = L) q1
    /\ Forall (fun p => p.2 = L + 1) q2
    /\ 0 <= L
    /\ Forall (fun d => 0 <= d <= L) (visit_depths (trace st))
    /\ StronglySorted Z.le (visit_depths (trace st))
    /\ Forall (fun p => 1 <= p.2) (enqueued (trace st)).
Proof.
  revert st. apply reachable_ind_turn.
  - exists 0, [(url, 0)], []. simpl. repeat split; by repeat constructor.
  - intros st st' (L0 & q10 & q20 & Hq0 & H10 & H20 & HL0 & Hv0 & Hs & He) Hturn.
    (* the head of the frontier is at the current level *)
    assert (Hhead : forall u d rest,
               to_visit st = (u, d) :: rest ->
               exists q1 q2,
                 rest = (q1 ++ q2)%list
                 /\ Forall (fun p => p.2 = d) q1
                 /\ Forall (fun p => p.2 = d + 1) q2
                 /\ 0 <= d
                 /\ Forall (fun d' => 0 <= d' <= d) (visit_depths (trace st))).
    { intros u d rest Eq. rewrite Hq0 in Eq. destruct q10 as [|p q10].
      - simpl in Eq. subst q20. apply Forall_cons in H20 as [Hd H20].
        simpl in Hd. exists rest, []. rewrite app_nil_r.
        repeat split; [by rewrite Hd|by constructor|lia|].
        eapply Forall_impl; [exact Hv0|]. simpl. lia.
      - injection Eq as -> <-. apply Forall_cons in H10 as [Hd H10].
        simpl in Hd. subst L0. exists q10, q20. done. }
    assert (Hvisit : forall u d,
               0 <= d -> Forall (fun d' => 0 <= d' <= d) (visit_depths (trace st)) ->
               Forall (fun d' => 0 <= d' <= d)
                      (visit_depths (trace st ++ [EvVisit u d; EvGet u d]))
               /\ StronglySorted Z.le
                    (visit_depths (trace st ++ [EvVisit u d; EvGet u d]))).
    { intros u d Hd Hv. rewrite visit_depths_app. simpl. split.
      - apply Forall_app. split; [done|]. apply Forall_singleton. lia.
      - apply sorted_snoc; [done|]. eapply Forall_impl; [exact Hv|]. simpl. lia. }
    destruct Hturn as [u d rest Eq _ ->|u d rest e Eq _ _ _ ->|u d rest r Eq _ _ _ ->];
      destruct (Hhead _ _ _ Eq) as (q1 & q2 & -> & H1 & H2 & Hd & Hv); simpl.
    + exists d, q1, q2. rewrite visit_depths_app, enqueued_app. simpl.
      rewrite !app_nil_r. done.
    + exists d, q1, q2. destruct (Hvisit u d Hd Hv) as [Hv' Hs'].
      rewrite enqueued_app. simpl. rewrite app_nil_r. done.
    + exists d, q1, (q2 ++ List.map (fun u' => (u', d + 1))
                             (children W url u (find_all_a_href W (text r))))%list.
      destruct (Hvisit u d Hd Hv) as [Hv' Hs'].
      destruct (expand_views u d (find_all_a_href W (text r))
                  {| visited := visited st ∪ {[u]}; to_visit := (q1 ++ q2)%list;
                     clock := S (clock st);
                     trace := (trace st ++ [EvVisit u d; EvGet u d])%list |})
        as (_ & -> & ->).
      rewrite expand_to_visit. simpl. rewrite <- app_assoc.
      assert (Hnew : forall (l : list string),
                 Forall (fun p : string * Z => p.2 = d + 1)
                        (List.map (fun u' => (u', d + 1)) l)).
      { intros l. apply Forall_map, Forall_forall. done. }
      repeat split; try done.
      * apply Forall_app. split; [done|apply Hnew].
      * rewrite enqueued_app. simpl. rewrite app_nil_r.
        apply Forall_app. split; [done|].
        eapply Forall_impl; [apply Hnew|]. simpl. lia.
Qed.

(** *** What the visited set holds *)

Lemma reachable_accounted st :
  reachable W url depth st ->
  (forall p, In p (to_visit st) -> p = (url, 0) \/ In p (enqueued (trace st)))
  /\ (forall u, u ∈ visited st ->
                u = url \/ exists d, d <= depth /\ In (u, d) (enqueued (trace st)))
  /\ (forall u d, In (u, d) (enqueued (trace st)) -> d <= depth ->
                  u ∈ visited st \/ In (u, d) (to_visit st)).
Proof.
  revert st.
  apply (reachable_ind_turn W url depth
    (fun st =>
       (forall p, In p (to_visit st) -> p = (url, 0) \/ In p (enqueued (trace st)))
       /\ (forall u, u ∈ visited st ->
              u = url \/ exists d, d <= depth /\ In (u, d) (enqueued (trace st)))
       /\ (forall u d, In (u, d) (enqueued (trace st)) -> d <= depth ->
              u ∈ visited st \/ In (u, d) (to_visit st)))).
  - simpl. split; [|split].
    + intros p [<-|[]]. by left.
    + set_solver.
    + by intros u d [].
  - intros st st' (Hq & Hv & He) Hturn.
    (* a visit of the head of the frontier *)
    assert (Hadd : forall u d rest,
               to_visit st = (u, d) :: rest -> d <= depth ->
               (forall u', u' ∈ visited st ∪ {[u]} ->
                  u' = url \/ exists d', d' <= depth
                                         /\ In (u', d') (enqueued (trace st)))
               /\ (forall u' d', In (u', d') (enqueued (trace st)) -> d' <= depth ->
                      u' ∈ visited st ∪ {[u]} \/ In (u', d') rest)).
    { intros u d rest Eq Hd. split.
      - intros u' [Hold| ->%elem_of_singleton]%elem_of_union; [by apply Hv|].
        destruct (Hq (u, d)) as [[= -> _]|Hin]; [rewrite Eq; by left|by left|].
        right. eauto.
      - intros u' d' Hin Hd'. destruct (He u' d' Hin Hd') as [Hold|Hfront].
        + left. set_solver.
        + rewrite Eq in Hfront. destruct Hfront as [[= <- <-]|Hrest]; [|by right].
          left. set_solver. }
    destruct Hturn as [u d rest Eq Hwhy ->|u d rest e Eq _ Hd _ ->|u d rest r Eq _ Hd _ ->].
    + simpl. rewrite enqueued_app. simpl. rewrite app_nil_r.
      split; [|split; [done|]].
      * intros p Hp. apply Hq. rewrite Eq. by right.
      * intros u' d' Hin Hd'. destruct (He u' d' Hin Hd') as [Hold|Hfront]; [by left|].
        rewrite Eq in Hfront. destruct Hfront as [[= <- <-]|Hrest]; [|by right].
        destruct Hwhy as [Hseen|Hdeep]; [by left|lia].
    + simpl. rewrite enqueued_app. simpl. rewrite app_nil_r.
      destruct (Hadd u d rest Eq Hd) as [Hv' He'].
      split; [|done]. intros p Hp. apply Hq. rewrite Eq. by right.
    + destruct (Hadd u d rest Eq Hd) as [Hv' He'].
      destruct (expand_views u d (find_all_a_href W (text r))
                  {| visited := visited st ∪ {[u]}; to_visit := rest;
                     clock := S (clock st);
                     trace := (trace st ++ [EvVisit u d; EvGet u d])%list |})
        as (_ & _ & ->).
      rewrite expand_visited, expand_to_visit. simpl.
      rewrite enqueued_app. simpl. rewrite app_nil_r.
      split; [|split].
      * intros p [Hp|Hp]%in_app_or.
        -- destruct (Hq p) as [->|Hin]; [rewrite Eq; by right|by left|].
           right. apply in_or_app. by left.
        -- right. apply in_or_app. by right.
      * intros u' Hu'. destruct (Hv' u' Hu') as [->|(d' & Hd' & Hin)]; [by left|].
        right. exists d'. split; [done|]. apply in_or_app. by left.
      * intros u' d' [Hin|Hin]%in_app_or Hd'.
        -- destruct (He' u' d' Hin Hd') as [?|?]; [by left|].
           right. apply in_or_app. by left.
        -- right. apply in_or_app. by right.
Qed.

(** *** Where the enqueued URLs come from *)

Lemma children_from_links cu hrefs u :
  In u (children W url cu hrefs) ->
  exists href, In href hrefs /\ u = urljoin W cu href
               /\ netloc (urlparse W u) = netloc (urlparse W url).
Proof.
  intros [Hin Hscope]%filter_In. apply in_map_iff in Hin as (href & <- & Hin).
  exists href. repeat split; [done|]. by apply String.eqb_eq.
Qed.

(** Every pair appended holds a link of a page fetched with success,
    resolved against the URL of that page. *)
Lemma reachable_provenance st :
  reachable W url depth st ->
  forall u d, In (u, d) (enqueued (trace st)) ->
    exists n parent response href,
      requested (trace st) !! n = Some parent
      /\ fetch W n parent = inl response
      /\ In href (find_all_a_href W (text response))
      /\ u = urljoin W parent href
      /\ netloc (urlparse W u) = netloc (urlparse W url).
Proof.
  induction 1 as [|st st' Hst IH Hstep]; [by intros u d []|].
  destruct (reachable_requests st Hst) as (_ & _ & Hclock).
  apply step_turn in Hstep.
  assert (Hold : forall evs u d,
             In (u, d) (enqueued (trace st)) ->
             exists n parent response href,
               requested (trace st ++ evs) !! n = Some parent
               /\ fetch W n parent = inl response
               /\ In href (find_all_a_href W (text response))
               /\ u = urljoin W parent href
               /\ netloc (urlparse W u) = netloc (urlparse W url)).
  { intros evs u d Hin.
    destruct (IH u d Hin) as (n & parent & response & href & Hn & Hrest).
    exists n, parent, response, href. split; [|done].
    rewrite requested_app. by apply lookup_app_l_Some. }
  destruct Hstep as [u0 d0 rest _ _ ->|u0 d0 rest e _ _ _ _ ->|u0 d0 rest r _ _ _ Hfetch ->].
  - simpl. intros u d. rewrite enqueued_app. simpl. rewrite app_nil_r.
    intros Hin. by apply (Hold _ u d).
  - simpl. intros u d. rewrite enqueued_app. simpl. rewrite app_nil_r.
    intros Hin. by apply (Hold _ u d).
  - intros u d.
    destruct (expand_views u0 d0 (find_all_a_href W (text r))
                {| visited := visited st ∪ {[u0]}; to_visit := rest;
                   clock := S (clock st);
                   trace := (trace st ++ [EvVisit u0 d0; EvGet u0 d0])%list |})
      as (-> & _ & ->).
    simpl. rewrite enqueued_app. simpl. rewrite app_nil_r.
    intros [Hin|Hin]%in_app_or; [by apply (Hold _ u d)|].
    apply in_map_iff in Hin as (c & [= <- <-] & Hc).
    apply children_from_links in Hc as (href & Hhref & -> & Hscope).
    exists (clock st), u0, r, href. split; [|done].
    rewrite requested_app, Hclock. simpl.
    rewrite lookup_app_r; [|done]. by rewrite Nat.sub_diag.
Qed.

(** *** Visits *)

Lemma expand_visits cu cd hrefs st :
  visits (trace (expand W url cu cd hrefs st)) = visits (trace st).
Proof.
  revert st. induction hrefs as [|href hrefs IH]; intros st; simpl; [done|].
  destruct (String.eqb _ _); rewrite IH; [|done].
  simpl. rewrite visits_app. simpl. by rewrite app_nil_r.
Qed.

(** The visited set holds the URLs of the visits. *)
Lemma reachable_visits st :
  reachable W url depth st ->
  forall u, u ∈ visited st <-> exists d, In (u, d) (visits (trace st)).
Proof.
  revert st.
  apply (reachable_ind_turn W url depth
           (fun st => forall u, u ∈ visited st
                                <-> exists d, In (u, d) (visits (trace st)))).
  - intros u. simpl. split; [set_solver|by intros [d []]].
  - intros st st' IH Hturn.
    assert (Hadd : forall u0 d0 u,
               u ∈ visited st ∪ {[u0]}
               <-> exists d, In (u, d) (visits (trace st ++ [EvVisit u0 d0; EvGet u0 d0]))).
    { intros u0 d0 u. rewrite visits_app, elem_of_union, elem_of_singleton, IH.
      simpl. split.
      - intros [[d Hd]| ->]; [exists d|exists d0]; apply in_or_app; [by left|].
        right. by left.
      - intros [d [Hd|[[= <- <-]|[]]]%in_app_or]; [left; by exists d|by right]. }
    destruct Hturn as [u0 d0 rest _ _ ->|u0 d0 rest e _ _ _ _ ->|u0 d0 rest r _ _ _ _ ->].
    + intros u. simpl. rewrite visits_app. simpl. by rewrite app_nil_r.
    + intros u. simpl. apply Hadd.
    + intros u. rewrite expand_visited, expand_visits. simpl. apply Hadd.
Qed.

(** No visit so far was deeper than the head of the frontier. *)
Lemma head_level st u d rest :
  reachable W url depth st ->
  to_visit st = (u, d) :: rest ->
  Forall (fun p => p.2 <= d) (visits (trace st)).
Proof.
  intros Hst Eq.
  destruct (reachable_levels st Hst) as (L & q1 & q2 & Hq & H1 & H2 & _ & Hv & _).
  assert (HL : L <= d).
  { rewrite Hq in Eq. destruct q1 as [|p q1].
    - simpl in Eq. subst q2. apply Forall_cons in H2 as [Hd _]. simpl in Hd. lia.
    - injection Eq as -> _. apply Forall_cons in H1 as [Hd _]. simpl in Hd. lia. }
  rewrite visit_depths_visits in Hv. apply Forall_fmap in Hv.
  eapply Forall_impl; [exact Hv|]. simpl. lia.
Qed.

(** A pair taken off the frontier at a depth within the bound is visited
    then, or was visited before, at a depth that is not larger. *)
Lemma reachable_first_visit st :
  reachable W url depth st ->
  forall u d, In (u, d) (dequeued (trace st)) -> d <= depth ->
    exists d', d' <= d /\ In (u, d') (visits (trace st)).
Proof.
  induction 1 as [|st st' Hst IH Hstep]; [by intros u d []|].
  apply step_turn in Hstep.
  assert (Hold : forall evs u d,
             In (u, d) (dequeued (trace st)) -> d <= depth ->
             exists d', d' <= d /\ In (u, d') (visits (trace st ++ evs))).
  { intros evs u d Hin Hd. destruct (IH u d Hin Hd) as (d' & Hd' & Hv).
    exists d'. split; [done|]. rewrite visits_app. apply in_or_app. by left. }
  assert (Hvisit : forall u0 d0 u d,
             In (u, d) (dequeued (trace st ++ [EvVisit u0 d0; EvGet u0 d0])) ->
             d <= depth ->
             exists d', d' <= d
                        /\ In (u, d') (visits (trace st ++ [EvVisit u0 d0; EvGet u0 d0]))).
  { intros u0 d0 u d Hin Hd. rewrite dequeued_app in Hin. simpl in Hin.
    apply in_app_or in Hin as [Hin|[[= <- <-]|[]]]; [by apply Hold|].
    exists d0. split; [lia|]. rewrite visits_app. apply in_or_app. right. by left. }
  destruct Hstep as [u0 d0 rest Eq Hwhy ->|u0 d0 rest e _ _ _ _ ->|u0 d0 rest r _ _ _ _ ->].
  - simpl. intros u d Hin Hd. rewrite dequeued_app in Hin. simpl in Hin.
    apply in_app_or in Hin as [Hin|[[= <- <-]|[]]]; [by apply Hold|].
    destruct Hwhy as [Hseen|Hdeep]; [|lia].
    apply (reachable_visits st Hst) in Hseen as [d' Hd'].
    exists d'. split.
    + pose proof (head_level st _ _ _ Hst Eq) as Hlevel.
      eapply (proj1 (List.Forall_forall _ _)) in Hlevel; [|exact Hd']. done.
    + rewrite visits_app. apply in_or_app. by left.
  - simpl. apply Hvisit.
  - rewrite expand_dequeued, expand_visits. simpl. apply Hvisit.
Qed.

(** *** What a crawl that ended returned *)

Lemma run_accounted fuel st u :
  0 <= depth ->
  run W url depth fuel = Some st ->
  u ∈ visited st
  <-> u = url \/ exists d, d <= depth /\ In (u, d) (enqueued (trace st)).
Proof.
  intros Hdepth Hrun.
  assert (Hseed : url ∈ visited st).
  { unfold run in Hrun. destruct fuel as [|fuel]; [done|]. simpl in Hrun.
    destruct (step W url depth (init url)) as [st1|] eqn:Hstep.
    - apply (loop_visited_grows _ _ _ _ _ _ Hrun).
      by apply (first_turn_adds_seed W url depth).
    - by apply step_none in Hstep. }
  apply loop_reachable in Hrun as [Hst Hempty]; [|constructor].
  destruct (reachable_accounted st Hst) as (_ & Hv & He).
  split; [apply Hv|].
  intros [->|(d & Hd & Hin)]; [done|].
  destruct (He u d Hin Hd) as [?|Hfront]; [done|].
  by rewrite Hempty in Hfront.
Qed.

(** *** The link graph *)

Lemma within_mono k k' u :
  Graph.within W url k u -> k <= k' -> Graph.within W url k' u.
Proof.
  intros Hw. revert k'. induction Hw as [k Hk|k p u Hp IH Hlink]; intros k' Hle.
  - apply Graph.within_seed. lia.
  - replace k' with (k' - 1 + 1) by lia.
    apply (Graph.within_link W url _ p); [|done]. apply IH. lia.
Qed.

Lemma children_of_link cu hrefs u :
  In u (children W url cu hrefs)
  <-> exists href, In href hrefs /\ u = urljoin W cu href
                   /\ netloc (urlparse W u) = netloc (urlparse W url).
Proof.
  split; [apply children_from_links|].
  intros (href & Hhref & -> & Hscope). apply filter_In. split.
  - apply in_map_iff. by exists href.
  - by apply String.eqb_eq.
Qed.

Section Steady.
Hypothesis Hsteady : Graph.steady W.

Lemma steady_fetch n u : fetch W n u = fetch W O u.
Proof. unfold fetch. by rewrite Hsteady. Qed.

(** Every pair of the frontier and every visit is as many links away from
    the seed as its depth says, at most. *)
Lemma reachable_within st :
  reachable W url depth st ->
  (forall u d, In (u, d) (to_visit st) -> Graph.within W url d u)
  /\ (forall u d, In (u, d) (visits (trace st)) -> Graph.within W url d u).
Proof.
  revert st. apply reachable_ind_turn.
  - split; [|by intros u d []].
    intros u d [[= <- <-]|[]]. by apply Graph.within_seed.
  - intros st st' [Hq Hv] Hturn.
    assert (Hadd : forall u0 d0 rest,
               to_visit st = (u0, d0) :: rest ->
               forall u d,
                 In (u, d) (visits (trace st ++ [EvVisit u0 d0; EvGet u0 d0])) ->
                 Graph.within W url d u).
    { intros u0 d0 rest Eq u d. rewrite visits_app. simpl.
      intros [Hin|[[= <- <-]|[]]]%in_app_or; [by apply Hv|].
      apply Hq. rewrite Eq. by left. }
    destruct Hturn as [u0 d0 rest Eq _ ->|u0 d0 rest e Eq _ _ _ ->|u0 d0 rest r Eq _ _ Hfetch ->].
    + simpl. rewrite visits_app. simpl. rewrite app_nil_r. split; [|done].
      intros u d Hin. apply Hq. rewrite Eq. by right.
    + simpl. split; [|by apply (Hadd u0 d0 rest)].
      intros u d Hin. apply Hq. rewrite Eq. by right.
    + rewrite expand_to_visit, expand_visits. simpl.
      split; [|by apply (Hadd u0 d0 rest)].
      intros u d [Hin|Hin]%in_app_or; [apply Hq; rewrite Eq; by right|].
      apply in_map_iff in Hin as (c & [= <- <-] & Hc).
      apply children_of_link in Hc as (href & Hhref & -> & Hscope).
      apply (Graph.within_link W url d0 u0); [apply Hq; rewrite Eq; by left|].
      exists r, href. by rewrite <- (steady_fetch (clock st)).
Qed.

(** Every link of a page visited was appended, one level below the page. *)
Lemma reachable_links_enqueued st :
  reachable W url depth st ->
  forall p d u, In (p, d) (visits (trace st)) -> Graph.link W url p u ->
    In (u, d + 1) (enqueued (trace st)).
Proof.
  revert st.
  apply (reachable_ind_turn W url depth
           (fun st => forall p d u,
                In (p, d) (visits (trace st)) -> Graph.link W url p u ->
                In (u, d + 1) (enqueued (trace st)))).
  - by intros p d u [].
  - intros st st' IH Hturn.
    destruct Hturn as [u0 d0 rest _ _ ->|u0 d0 rest e _ _ _ Hfetch ->|u0 d0 rest r _ _ _ Hfetch ->].
    + simpl. intros p d u. rewrite visits_app, enqueued_app. simpl.
      rewrite !app_nil_r. apply IH.
    + simpl. intros p d u. rewrite visits_app, enqueued_app. simpl.
      rewrite app_nil_r.
      intros [Hin|[[= <- <-]|[]]]%in_app_or Hlink; [by apply (IH p d u)|].
      destruct Hlink as (response & href & Hok & _).
      rewrite steady_fetch in Hfetch. congruence.
    + intros p d u. rewrite expand_visits.
      destruct (expand_views u0 d0 (find_all_a_href W (text r))
                  {| visited := visited st ∪ {[u0]}; to_visit := rest;
                     clock := S (clock st);
                     trace := (trace st ++ [EvVisit u0 d0; EvGet u0 d0])%list |})
        as (_ & _ & ->).
      simpl. rewrite visits_app, enqueued_app. simpl. rewrite app_nil_r.
      intros [Hin|[[= <- <-]|[]]]%in_app_or Hlink; apply in_or_app;
        [left; by apply (IH p d u)|right].
      destruct Hlink as (response & href & Hok & Hhref & -> & Hscope).
      rewrite steady_fetch in Hfetch.
      assert (response = r) as -> by congruence.
      apply in_map_iff. exists (urljoin W u0 href). split; [done|].
      apply children_of_link. by exists href.
Qed.

(** The crawl of a steady site returns the URLs at most [depth] links away
    from the seed. *)
Lemma run_within fuel st u :
  0 <= depth ->
  run W url depth fuel = Some st ->
  u ∈ visited st <-> Graph.within W url depth u.
Proof.
  intros Hdepth Hrun.
  apply loop_reachable in Hrun as [Hst Hempty]; [|constructor].
  pose proof (reachable_fifo st Hst) as Hfifo.
  rewrite Hempty, app_nil_r in Hfifo.
  split.
  - intros Hu.
    destruct (reachable_visited_trace W url depth st Hst u Hu) as (d & Hd & Hev).
    apply (within_mono d); [|done].
    apply (reachable_within st Hst). clear -Hev.
    induction (trace st) as [|ev tr IH]; [done|].
    destruct Hev as [->|Hev]; [by left|].
    destruct ev; simpl; auto.
  - assert (Hvisited : forall k u', Graph.within W url k u' -> k <= depth ->
               exists d, d <= k /\ In (u', d) (visits (trace st))).
    { intros k u' Hw. induction Hw as [k Hk|k p u' Hp IH Hlink]; intros Hle.
      - destruct (reachable_first_visit st Hst url 0) as (d & Hd & Hin);
          [rewrite Hfifo; by left|done|].
        exists d. split; [lia|done].
      - destruct IH as (d & Hd & Hin); [lia|].
        pose proof (reachable_links_enqueued st Hst p d u' Hin Hlink) as Henq.
        destruct (reachable_first_visit st Hst u' (d + 1)) as (d' & Hd' & Hin');
          [rewrite Hfifo; by right|lia|].
        exists d'. split; [lia|done]. }
    intros Hw. destruct (Hvisited depth u Hw) as (d & _ & Hin); [done|].
    apply (reachable_visits st Hst). by exists d.
Qed.

End Steady.

End Views.


(** X1: the crawl sends one request for each URL of the set it returns and
    no other: the URLs requested are pairwise distinct, they are the
    elements of the result, and the number of requests is its size. *)
Theorem one_request_per_result (W : World) (url : string) (depth : Z)
        (fuel : nat) (st : state) :
  run W url depth fuel = Some st ->
  NoDup (requested (trace st))
  /\ (forall u, u ∈ visited st <-> In u (requested (trace st)))
  /\ clock st = size (visited st).
Proof.
  intros Hrun. apply loop_reachable in Hrun as [Hst _]; [|constructor].
  destruct (reachable_requests W url depth st Hst) as (Hnodup & Hset & Hclock).
  split; [done|]. split.
  - intros u. rewrite Hset, elem_of_list_to_set. apply list_elem_of_In.
  - rewrite Hclock, Hset. symmetry. by apply size_list_to_set.
Qed.

Lemma one_request_per_result_witness :
  NoDup (requested (trace Stubs.cycle_final))
  /\ (forall u, u ∈ visited Stubs.cycle_final
                <-> In u (requested (trace Stubs.cycle_final)))
  /\ clock Stubs.cycle_final = size (visited Stubs.cycle_final).
Proof.
  apply (one_request_per_result Stub.cycle Stub.ping 5 4 Stubs.cycle_final).
  vm_compute. reflexivity.
Defined.

(** X2: the crawl is breadth first: the depths at which URLs are added to
    the visited set never decrease from one visit to the next, and each
    lies between 0 and the bound. *)
Theorem visits_by_level (W : World) (url : string) (depth : Z)
        (fuel : nat) (st : state) :
  run W url depth fuel = Some st ->
  StronglySorted Z.le (visit_depths (trace st))
  /\ Forall (fun d => 0 <= d <= depth) (visit_depths (trace st)).
Proof.
  intros Hrun. apply loop_reachable in Hrun as [Hst _]; [|constructor].
  destruct (reachable_levels W url depth st Hst)
    as (L & _ & _ & _ & _ & _ & _ & Hv & Hs & _).
  split; [done|].
  assert (Hle : Forall (fun ev => forall u d, ev = EvVisit u d -> d <= depth)
                       (trace st)).
  { revert Hst. apply reachable_trace; simpl; try done.
    intros u d Hd. split; [by intros ? ? [= _ <-]|done]. }
  revert Hv Hle. generalize (trace st). intros tr.
  induction tr as [|ev tr IH]; simpl; [constructor|].
  intros Hv [Hev Htr]%Forall_cons. destruct ev; try by apply IH.
  apply Forall_cons in Hv as [Hd Hv]. constructor; [|by apply IH].
  split; [lia|]. by apply (Hev u).
Qed.

Lemma visits_by_level_witness :
  StronglySorted Z.le (visit_depths (trace Stubs.cycle_final))
  /\ Forall (fun d => 0 <= d <= 5) (visit_depths (trace Stubs.cycle_final)).
Proof.
  apply (visits_by_level Stub.cycle Stub.ping 5 4 Stubs.cycle_final).
  vm_compute. reflexivity.
Defined.

(** X3: when the bound is not negative, the set returned holds the seed
    and the URLs appended to the frontier at a depth within the bound, and
    nothing else: no link in scope found at such a depth is lost, and
    nothing enters the result but through the seed or a link. *)
Theorem result_is_seed_and_links (W : World) (url : string) (depth : Z)
        (fuel : nat) (st : state) (u : string) :
  0 <= depth ->
  run W url depth fuel = Some st ->
  u ∈ visited st
  <-> u = url \/ exists d, d <= depth /\ In (u, d) (enqueued (trace st)).
Proof. apply run_accounted. Qed.

Lemma result_is_seed_and_links_witness :
  Stub.pong ∈ visited Stubs.cycle_final
  <-> Stub.pong = Stub.ping
      \/ exists d, d <= 5 /\ In (Stub.pong, d) (enqueued (trace Stubs.cycle_final)).
Proof.
  apply (result_is_seed_and_links Stub.cycle Stub.ping 5 4 Stubs.cycle_final).
  - lia.
  - vm_compute. reflexivity.
Defined.

(** X4: nothing enters the result but the seed and links: every other URL
    of the set returned is a link found on a page of the result that was
    fetched with success, resolved against the URL of that page, and its
    [netloc] is the seed's. *)
Theorem result_comes_from_links (W : World) (url : string) (depth : Z)
        (fuel : nat) (st : state) (u : string) :
  run W url depth fuel = Some st ->
  u ∈ visited st ->
  u = url
  \/ exists n parent response href,
       requested (trace st) !! n = Some parent
       /\ parent ∈ visited st
       /\ fetch W n parent = inl response
       /\ In href (find_all_a_href W (text response))
       /\ u = urljoin W parent href
       /\ netloc (urlparse W u) = netloc (urlparse W url).
Proof.
  intros Hrun Hu. apply loop_reachable in Hrun as [Hst _]; [|constructor].
  destruct (reachable_accounted W url depth st Hst) as (_ & Hv & _).
  destruct (Hv u Hu) as [->|(d & _ & Hin)]; [by left|]. right.
  destruct (reachable_provenance W url depth st Hst u d Hin)
    as (n & parent & response & href & Hn & Hrest).
  exists n, parent, response, href. split; [done|]. split; [|done].
  destruct (reachable_requests W url depth st Hst) as (_ & -> & _).
  apply elem_of_list_to_set. by eapply list_elem_of_lookup_2.
Qed.

Lemma result_comes_from_links_witness :
  Stub.pong = Stub.ping
  \/ exists n parent response href,
       requested (trace Stubs.cycle_final) !! n = Some parent
       /\ parent ∈ visited Stubs.cycle_final
       /\ fetch Stub.cycle n parent = inl response
       /\ In href (find_all_a_href Stub.cycle (text response))
       /\ Stub.pong = urljoin Stub.cycle parent href
       /\ netloc (urlparse Stub.cycle Stub.pong)
          = netloc (urlparse Stub.cycle Stub.ping).
Proof.
  apply (result_comes_from_links Stub.cycle Stub.ping 5 4 Stubs.cycle_final).
  - vm_compute. reflexivity.
  - apply (bool_decide_unpack _). vm_compute. exact I.
Defined.

(** X5: the frontier is a queue: the pairs taken off it (dropped or
    visited) are the seed at depth 0 followed by the pairs appended, in the
    order they were appended, each one once. *)
Theorem first_in_first_out (W : World) (url : string) (depth : Z)
        (fuel : nat) (st : state) :
  run W url depth fuel = Some st ->
  dequeued (trace st) = (url, 0) :: enqueued (trace st).
Proof.
  intros Hrun. apply loop_reachable in Hrun as [Hst Hempty]; [|constructor].
  rewrite <- (reachable_fifo W url depth st Hst), Hempty. by rewrite app_nil_r.
Qed.

Lemma first_in_first_out_witness :
  dequeued (trace Stub.mixed_final_0)
  = (Stub.home, 0) :: enqueued (trace Stub.mixed_final_0).
Proof.
  apply (first_in_first_out Stub.mixed_schemes Stub.home 0 5).
  vm_compute. reflexivity.
Defined.

(** X6: on a site whose server answers each URL the same way at every
    request, and for a bound that is not negative, the crawl returns exactly
    the URLs that are at most [depth] links away from the seed, a link
    being an [href] of a page fetched with success, resolved against it,
    whose [netloc] is the seed's. *)
Theorem crawl_is_bounded_reachability (W : World) (url : string) (depth : Z)
        (fuel : nat) (r : gset string) (u : string) :
  Graph.steady W ->
  0 <= depth ->
  crawl_website W url depth fuel = Some r ->
  u ∈ r <-> Graph.within W url depth u.
Proof.
  intros Hsteady Hdepth. unfold crawl_website.
  destruct (run W url depth fuel) as [st|] eqn:Hrun; [|done].
  intros [= <-]. by apply (run_within W url depth Hsteady fuel).
Qed.

Lemma crawl_is_bounded_reachability_witness :
  Stub.pong ∈ ({[Stub.ping]} ∪ {[Stub.pong]} : gset string)
  <-> Graph.within Stub.cycle Stub.ping 5 Stub.pong.
Proof.
  apply (crawl_is_bounded_reachability Stub.cycle Stub.ping 5 4).
  - intros n u. reflexivity.
  - lia.
  - vm_compute. reflexivity.
Defined.

(** X7: with [depth = 0] the crawl returns the seed alone, after one
    request, whatever the page links to. *)
Theorem depth_zero_seed_alone (W : World) (url : string)
        (fuel : nat) (st : state) :
  run W url 0 fuel = Some st ->
  visited st = {[url]} /\ clock st = 1%nat.
Proof.
  intros Hrun.
  assert (Hset : visited st = {[url]}).
  { apply set_eq. intros u.
    rewrite (run_accounted W url 0 fuel st u); [|done|done].
    rewrite elem_of_singleton. split; [|by left].
    intros [->|(d & Hd & Hin)]; [done|].
    apply loop_reachable in Hrun as [Hst _]; [|constructor].
    destruct (reachable_levels W url 0 st Hst)
      as (_ & _ & _ & _ & _ & _ & _ & _ & _ & He).
    eapply (proj1 (List.Forall_forall _ _)) in He; [|exact Hin].
    simpl in He. lia. }
  split; [done|].
  apply loop_reachable in Hrun as [Hst _]; [|constructor].
  destruct (reachable_requests W url 0 st Hst) as (Hnodup & Hreq & ->).
  rewrite <- (size_list_to_set (C := gset string)); [|done].
  rewrite <- Hreq, Hset. apply size_singleton.
Qed.

Lemma depth_zero_seed_alone_witness :
  visited Stub.mixed_final_0 = {[Stub.home]} /\ clock Stub.mixed_final_0 = 1%nat.
Proof.
  apply (depth_zero_seed_alone Stub.mixed_schemes Stub.home 5 Stub.mixed_final_0).
  vm_compute. reflexivity.
Defined.

End CrawlMore.

(** ** The probe routines: further properties *)

Module ProbeMore.
Import Py Probe ProbeFacts.

Lemma admin_hit_is_200 (a : Response + RequestException) :
  Spec.admin_hit a = Spec.status_is a 200.
Proof.
  unfold Spec.admin_hit. destruct a as [r|e]; simpl; [|done].
  destruct (status_code r =? 200) eqn:E200; destruct (status_code r =? 403) eqn:E403;
    simpl; rewrite ?andb_true_r, ?andb_false_r; try done.
  - replace (400 <=? status_code r) with false by lia. done.
  - replace (400 <=? status_code r) with false by lia. done.
  - replace (400 <=? status_code r) with true by lia.
    replace (status_code r <? 600) with true by lia. done.
Qed.

Lemma filter_hit_ext (hit1 hit2 : Response + RequestException -> bool)
      (cs : list (string * (Response + RequestException))) :
  (forall a, hit1 a = hit2 a) ->
  List.filter (fun c => hit1 c.2) cs = List.filter (fun c => hit2 c.2) cs.
Proof.
  intros Hext. induction cs as [|c cs IH]; simpl; [done|].
  by rewrite Hext, IH.
Qed.

(** X8: the admin-panel probe reports exactly the paths answered with
    status 200, in the order of the paths: a 403 makes [raise_for_status]
    raise before line 87 is reached, so it is never a hit, whatever line 87
    tests. *)
Theorem admin_hits_are_status_200 (W : World) (url : string) (s : list string) :
  check_admin_panels W url s
  = ((s ++ List.map (urljoin W url) admin_paths)%list,
     Return (List.filter (fun c => Spec.status_is c.2 200)
                         (Spec.candidates W url (length s) admin_paths)).*1).
Proof.
  unfold check_admin_panels.
  by rewrite admin_loop_spec, (filter_hit_ext _ _ _ admin_hit_is_200).
Qed.

Lemma admin_hits_are_status_200_witness :
  check_admin_panels Stub.exposed Stub.site []
  = (["http://example.com/admin"; "http://example.com/administrator";
      "http://example.com/login"; "http://example.com/wp-admin";
      "http://example.com/panel"],
     Return ["http://example.com/admin"])
  /\ check_admin_panels (Stub.constant 403 "Forbidden") Stub.site []
     = (["http://example.com/admin"; "http://example.com/administrator";
         "http://example.com/login"; "http://example.com/wp-admin";
         "http://example.com/panel"],
        Return []).
Proof.
  rewrite (admin_hits_are_status_200 Stub.exposed Stub.site []).
  rewrite (admin_hits_are_status_200 (Stub.constant 403 "Forbidden") Stub.site []).
  split; vm_compute; reflexivity.
Defined.

(** When every request raises (no answer, or a status 4xx or 5xx), a
    probe reports nothing, having requested each of its paths. *)
Lemma no_answer_no_hit (hit : Response + RequestException -> bool)
      (W : World) (url : string) (n : nat) (paths : list string) :
  (forall a, hit a = true -> Spec.fetch_raises a = false) ->
  (forall k u, Spec.fetch_raises (requests_get W k u) = true) ->
  List.filter (fun c => hit c.2) (Spec.candidates W url n paths) = [].
Proof.
  intros Hhit Hall. revert n. induction paths as [|path paths IH]; intros n; [done|].
  simpl. destruct (hit _) eqn:E; [|apply IH].
  apply Hhit in E. by rewrite Hall in E.
Qed.

End ProbeMore.

(** ** Python strings: further properties *)

Module PyStrMore.
Import PyStr PyStrFacts.

Lemma append_assoc (a b c : string) :
  ((a ++ b) ++ c)%string = (a ++ (b ++ c))%string.
Proof. induction a as [|x a IH]; [done|]. by rewrite !append_cons, IH. Qed.

Lemma all_chars_has_char (p : ascii -> bool) (s : string) (c : ascii) :
  Url.all_chars p s = true -> p c = false -> has_char c s = false.
Proof.
  intros Hall Hc. induction s as [|a s IH]; [done|]. simpl in *.
  apply andb_true_iff in Hall as [Ha Hall]. rewrite (IH Hall), orb_false_r.
  destruct (Ascii.eqb_spec a c) as [->|]; [congruence|done].
Qed.

Lemma all_chars_impl (p q : ascii -> bool) (s : string) :
  (forall c, p c = true -> q c = true) ->
  Url.all_chars p s = true -> Url.all_chars q s = true.
Proof.
  intros Hpq. induction s as [|a s IH]; [done|]. simpl.
  intros [Ha Hall]%andb_true_iff. by rewrite (Hpq a Ha), IH.
Qed.

(** *** [remove_char] *)

Lemma has_char_remove_same (c : ascii) (s : string) :
  has_char c (remove_char c s) = false.
Proof.
  induction s as [|a s IH]; [done|]. simpl.
  destruct (Ascii.eqb a c) eqn:E; [done|]. simpl. by rewrite E, IH.
Qed.

Lemma has_char_remove (c c' : ascii) (s : string) :
  has_char c s = false -> has_char c (remove_char c' s) = false.
Proof.
  induction s as [|a s IH]; [done|]. simpl.
  intros [Ha Hs]%orb_false_iff. destruct (Ascii.eqb a c'); [by apply IH|].
  simpl. by rewrite Ha, IH.
Qed.

Lemma remove_char_absent (c : ascii) (s : string) :
  has_char c s = false -> remove_char c s = s.
Proof.
  induction s as [|a s IH]; [done|]. simpl.
  intros [-> Hs]%orb_false_iff. by rewrite IH.
Qed.

Lemma remove_char_app (c : ascii) (a b : string) :
  remove_char c (a ++ b) = (remove_char c a ++ remove_char c b)%string.
Proof.
  induction a as [|x a IH]; [done|]. rewrite append_cons. simpl.
  destruct (Ascii.eqb x c); [done|]. by rewrite append_cons, IH.
Qed.

(** *** [strip] *)

Lemma has_char_lstrip (c : ascii) (s : string) :
  has_char c s = false -> has_char c (lstrip s) = false.
Proof.
  induction s as [|a s IH]; [done|]. simpl.
  intros [Ha Hs]%orb_false_iff. destruct (isspace a); [by apply IH|].
  simpl. by rewrite Ha, Hs.
Qed.

Lemma has_char_rstrip (c : ascii) (s : string) :
  has_char c s = false -> has_char c (rstrip s) = false.
Proof.
  induction s as [|a s IH]; [done|]. simpl.
  intros [Ha Hs]%orb_false_iff. specialize (IH Hs).
  destruct (rstrip s) as [|b t]; [|simpl in *; by rewrite Ha, IH].
  destruct (isspace a); [done|]. simpl. by rewrite Ha.
Qed.

Lemma lstrip_clean_start (s : string) : Version.clean_start (lstrip s).
Proof.
  induction s as [|a s IH]; [done|]. simpl. by destruct (isspace a) eqn:E.
Qed.

Lemma rstrip_clean_start (s : string) : Version.clean_start s -> Version.clean_start (rstrip s).
Proof.
  destruct s as [|a s]; [done|]. simpl. intros Ha.
  destruct (rstrip s); [by rewrite Ha|done].
Qed.

Lemma lstrip_fixed (s : string) : Version.clean_start s -> lstrip s = s.
Proof. destruct s as [|a s]; [done|]. simpl. by intros ->. Qed.

Lemma rstrip_idem (s : string) : rstrip (rstrip s) = rstrip s.
Proof.
  induction s as [|a s IH]; [done|]. simpl.
  destruct (rstrip s) as [|b t] eqn:E.
  - destruct (isspace a) eqn:Ha; [done|]. simpl. by rewrite Ha.
  - change (rstrip (String a (String b t))) with
      (match rstrip (String b t) with
       | EmptyString => if isspace a then EmptyString else String a EmptyString
       | t' => String a t'
       end).
    by rewrite IH.
Qed.

Lemma strip_idem (s : string) : strip (strip s) = strip s.
Proof.
  unfold strip. rewrite (lstrip_fixed (rstrip (lstrip s))).
  - apply rstrip_idem.
  - apply rstrip_clean_start, lstrip_clean_start.
Qed.

Lemma rstrip_fixed (s : string) :
  Url.all_chars (fun c => negb (isspace c)) s = true -> rstrip s = s.
Proof.
  induction s as [|a s IH]; [done|]. simpl.
  intros [Ha Hs]%andb_true_iff. rewrite (IH Hs).
  destruct s; [|done]. by destruct (isspace a).
Qed.

Lemma rstrip_app_end (s : string) (c : ascii) :
  isspace c = false ->
  rstrip (s ++ String c EmptyString) = (s ++ String c EmptyString)%string.
Proof.
  intros Hc. induction s as [|a s IH].
  - simpl. by rewrite Hc.
  - rewrite append_cons. simpl. rewrite IH.
    destruct (s ++ String c "")%string eqn:E; [|done].
    destruct s; discriminate E.
Qed.

(** *** [split] and [splitlines] *)

Lemma split_no_sep (c : ascii) (s : string) :
  has_char c s = false -> split c s = [s].
Proof.
  induction s as [|a s IH]; [done|]. simpl.
  intros [-> Hs]%orb_false_iff. by rewrite (IH Hs).
Qed.

Lemma split_at_sep (c : ascii) (a b : string) :
  has_char c a = false -> split c (a ++ String c b) = a :: split c b.
Proof.
  induction a as [|x a IH]; simpl.
  - intros _. change (split c (String c b)) with
      (if Ascii.eqb c c then EmptyString :: split c b
       else match split c b with
            | [] => [String c EmptyString]
            | t :: ts => String c t :: ts
            end).
    by rewrite Ascii.eqb_refl.
  - intros [Hx Ha]%orb_false_iff. by rewrite Hx, (IH Ha).
Qed.

Lemma linebreak_isspace (c : ascii) : is_linebreak c = true -> isspace c = true.
Proof.
  intros H. destruct c as [[] [] [] [] [] [] [] []];
    (reflexivity || discriminate H).
Qed.

Lemma splitlines_from_one_line (cur s : string) :
  Url.all_chars (fun c => negb (is_linebreak c)) s = true ->
  splitlines_from cur s
  = match (cur ++ s)%string with
    | EmptyString => []
    | line => [line]
    end.
Proof.
  revert cur. induction s as [|a s IH]; intros cur; simpl.
  - intros _. rewrite append_nil_r. by destruct cur.
  - intros [Ha Hs]%andb_true_iff. apply negb_true_iff in Ha. rewrite Ha.
    by rewrite (IH _ Hs), append_snoc.
Qed.

Lemma prefix_app (K s : string) : String.prefix K (K ++ s) = true.
Proof.
  induction K as [|k K IH]; [apply prefix_empty|]. rewrite append_cons. simpl.
  by destruct (ascii_dec k k).
Qed.

Lemma contains_prefix (K t : string) :
  String.prefix K t = true -> contains K t = true.
Proof.
  intros H. destruct t as [|a t].
  - by destruct K.
  - change (String.prefix K (String a t) || contains K t = true). by rewrite H.
Qed.

Lemma contains_app (K a s : string) : contains K (a ++ K ++ s) = true.
Proof.
  induction a as [|x a IH].
  - change (contains K (K ++ s) = true). apply contains_prefix, prefix_app.
  - rewrite append_cons. simpl. by rewrite IH, orb_true_r.
Qed.

Lemma all_chars_app (p : ascii -> bool) (a b : string) :
  Url.all_chars p (a ++ b) = Url.all_chars p a && Url.all_chars p b.
Proof.
  induction a as [|x a IH]; [done|]. rewrite append_cons. simpl.
  by rewrite IH, andb_assoc.
Qed.

Lemma has_char_app (c : ascii) (a b : string) :
  has_char c (a ++ b) = has_char c a || has_char c b.
Proof.
  induction a as [|x a IH]; [done|]. rewrite append_cons. simpl.
  by rewrite IH, orb_assoc.
Qed.

(** *** Substrings *)

Lemma contains_app_l (K a t : string) :
  contains K t = true -> contains K (a ++ t) = true.
Proof.
  intros H. induction a as [|x a IH]; [done|]. rewrite append_cons. simpl.
  by rewrite IH, orb_true_r.
Qed.

Lemma prefix_app_r (K t c : string) :
  String.prefix K t = true -> String.prefix K (t ++ c) = true.
Proof.
  revert t. induction K as [|k K IH]; intros t; [intros _; apply prefix_empty|].
  destruct t as [|x t]; [done|]. rewrite append_cons. simpl.
  destruct (ascii_dec k x); [apply IH|done].
Qed.

Lemma contains_app_r (K t c : string) :
  contains K t = true -> contains K (t ++ c) = true.
Proof.
  induction t as [|x t IH].
  - intros H. destruct K; [|done]. apply contains_prefix, prefix_empty.
  - change (contains K (String x t)) with (String.prefix K (String x t) || contains K t).
    intros [Hp|Hin]%orb_true_iff.
    + apply contains_prefix. by apply prefix_app_r.
    + rewrite append_cons.
      change (String.prefix K (String x (t ++ c)) || contains K (t ++ c) = true).
      by rewrite (IH Hin), orb_true_r.
Qed.

(** *** The lines before and after a line feed *)

(** What precedes a line feed is split on its own: the lines it gives
    are parts of it, and what follows the line feed is split from a fresh
    line. *)
Lemma splitlines_from_lf (n : nat) :
  forall b cur rest,
    (String.length b <= n)%nat ->
    exists lines,
      splitlines_from cur (b ++ String "010" rest)
      = (lines ++ splitlines_from EmptyString rest)%list
      /\ forall K l, In l lines -> contains K l = true ->
                     contains K (cur ++ b) = true.
Proof.
  induction n as [|n IH]; intros b cur rest Hlen.
  - destruct b; [|simpl in Hlen; lia]. exists [cur]. split.
    + change (splitlines_from cur (String "010" rest)
              = cur :: splitlines_from EmptyString rest).
      simpl. destruct rest; [done|]. done.
    + intros K l [<-|[]] Hl. by apply contains_app_r.
  - destruct b as [|c b].
    { apply (IH EmptyString); simpl; lia. }
    simpl in Hlen. rewrite append_cons.
    assert (Hsuffix : forall pre t K,
               (cur ++ String c b)%string = (pre ++ t)%string ->
               contains K t = true -> contains K (cur ++ String c b) = true).
    { intros pre t K -> Ht. by apply contains_app_l. }
    change (splitlines_from cur (String c (b ++ String "010" rest)))
      with (if is_linebreak c then
              match (b ++ String "010" rest)%string with
              | String c' s'' =>
                  if (nat_of_ascii c =? 13)%nat && (nat_of_ascii c' =? 10)%nat
                  then cur :: splitlines_from EmptyString s''
                  else cur :: splitlines_from EmptyString (b ++ String "010" rest)
              | EmptyString => [cur]
              end
            else splitlines_from (cur ++ String c EmptyString)
                                 (b ++ String "010" rest)).
    destruct (is_linebreak c) eqn:Hc.
    + destruct b as [|c' b].
      * change ("" ++ String "010" rest)%string with (String "010" rest).
        cbv beta iota.
        match goal with |- context [if ?t then _ else _] => destruct t end.
        -- exists [cur]. split; [done|].
           intros K l [<-|[]] Hl. by apply contains_app_r.
        -- destruct (IH EmptyString EmptyString rest) as (lines & Heq & Hparts);
             [simpl; lia|].
           change ("" ++ String "010" rest)%string with (String "010" rest) in Heq.
           exists (cur :: lines). split; [by rewrite Heq|].
           intros K l [<-|Hl] Hin; [by apply contains_app_r|].
           specialize (Hparts K l Hl Hin).
           destruct K; [apply contains_prefix, prefix_empty|discriminate Hparts].
      * rewrite append_cons. cbv beta iota.
        match goal with |- context [if ?t then _ else _] => destruct t end.
        -- destruct (IH b EmptyString rest) as (lines & Heq & Hparts);
             [simpl in Hlen; lia|].
           exists (cur :: lines). split; [by rewrite Heq|].
           intros K l [<-|Hl] Hin; [by apply contains_app_r|].
           apply (Hsuffix (cur ++ String c (String c' EmptyString))%string b K).
           ++ by rewrite append_assoc.
           ++ by apply (Hparts K l).
        -- destruct (IH (String c' b) EmptyString rest) as (lines & Heq & Hparts);
             [simpl in *; lia|].
           rewrite append_cons in Heq.
           exists (cur :: lines). split; [by rewrite Heq|].
           intros K l [<-|Hl] Hin; [by apply contains_app_r|].
           apply (Hsuffix (cur ++ String c EmptyString)%string (String c' b) K).
           ++ by rewrite append_snoc.
           ++ by apply (Hparts K l).
    + destruct (IH b (cur ++ String c EmptyString)%string rest)
        as (lines & Heq & Hparts); [lia|].
      exists lines. split; [done|].
      intros K l Hl Hin. rewrite <- append_snoc. by apply (Hparts K l).
Qed.

(** A line without line boundary, followed by nothing or by a line
    boundary, is the first line found. *)
Lemma splitlines_from_first (line cur after : string) :
  Url.all_chars (fun c => negb (is_linebreak c)) line = true ->
  (cur ++ line)%string <> EmptyString ->
  after = EmptyString
  \/ (exists c rest, after = String c rest /\ is_linebreak c = true) ->
  exists lines, splitlines_from cur (line ++ after) = (cur ++ line)%string :: lines.
Proof.
  revert cur. induction line as [|a line IH]; intros cur Hline Hne Hafter.
  - rewrite append_nil_r in *. change ("" ++ after)%string with after.
    destruct Hafter as [->|(c & rest & -> & Hc)].
    + simpl. destruct cur; [done|]. eauto.
    + simpl. rewrite Hc. destruct rest; [by eauto|]. destruct (_ && _); eauto.
  - simpl in Hline. apply andb_true_iff in Hline as [Ha Hline].
    apply negb_true_iff in Ha. rewrite append_cons. simpl. rewrite Ha.
    destruct (IH (cur ++ String a EmptyString)%string Hline) as (lines & ->);
      [|done|].
    + rewrite append_snoc. by destruct cur.
    + rewrite append_snoc. eauto.
Qed.

End PyStrMore.

(** ** The version scraper: further properties *)

Module ScraperMore.
Import Py Scraper ScraperFacts.

(** The four ways a call of the scraper can go, on the request log [s]. *)
Lemma scraper_cases (W : World) (url : string) (s : list string) :
  match fetch W (length s) url with
  | inr _ =>
      get_installed_software_versions W url s
      = ((s ++ [url])%list, Return ["Error fetching page."])
  | inl response =>
      if PyStr.contains "wp-content" (text response) then
        match find_generator_tag (find_all_meta W (text response)) with
        | Some tag =>
            match attrs tag !! "content" with
            | None =>
                get_installed_software_versions W url s
                = ((s ++ [url])%list, Raise (KeyError "content"))
            | Some _ =>
                exists findings,
                  get_installed_software_versions W url s
                  = ((s ++ [url; urljoin W url "wp-includes/version.php"])%list,
                     Return findings)
                  /\ In "WordPress site detected" findings
            end
        | None =>
            exists findings,
              get_installed_software_versions W url s
              = ((s ++ [url; urljoin W url "wp-includes/version.php"])%list,
                 Return findings)
              /\ In "WordPress site detected" findings
        end
      else
        exists findings,
          get_installed_software_versions W url s = ((s ++ [url])%list, Return findings)
          /\ findings <> []
  end.
Proof.
  unfold get_installed_software_versions, try_except, bind, get, getitem, raise, ret.
  simpl. destruct (fetch W (length s) url) as [response|e]; [|done].
  destruct (PyStr.contains "wp-content" (text response)).
  - set (version_info := (generator_loop _ [] ++ ["WordPress site detected"])%list).
    assert (Hin : In "WordPress site detected" version_info).
    { subst version_info. apply in_or_app. right. by left. }
    assert (Hlog : ((s ++ [url]) ++ [urljoin W url "wp-includes/version.php"])%list
                   = (s ++ [url; urljoin W url "wp-includes/version.php"])%list)
      by (by rewrite <- app_assoc).
    clearbody version_info.
    destruct (find_generator_tag _) as [tag|];
      [destruct (attrs tag !! "content") as [content|]; [|done]|];
      (destruct (fetch W _ _) as [r|e]; rewrite ?Hlog;
       [destruct (PyStr.contains "wp_version =" (text r)) eqn:Hmarker;
        [destruct (wp_version_returns _ Hmarker) as (version & ->)|]|]);
      match goal with
      | |- context [match ?l with [] => _ | _ :: _ => _ end] =>
          assert (Hl : In "WordPress site detected" l)
            by (repeat (apply in_or_app; left); exact Hin);
          destruct l; [destruct Hl|];
          eexists; split; [reflexivity|exact Hl]
      end.
  - destruct (generator_loop _ _) eqn:E; eexists; (split; [reflexivity|done]).
Qed.

Lemma findings_not_empty (W : World) (url : string)
        (s log : list string) (findings : list string) :
  get_installed_software_versions W url s = (log, Return findings) ->
  findings <> [].
Proof.
  pose proof (scraper_cases W url s) as Hcases. intros Hret.
  destruct (fetch W (length s) url) as [response|e0].
  - destruct (PyStr.contains "wp-content" (text response)).
    + assert (Hin : exists findings',
                 get_installed_software_versions W url s
                 = ((s ++ [url; urljoin W url "wp-includes/version.php"])%list,
                    Return findings')
                 /\ In "WordPress site detected" findings').
      { destruct (find_generator_tag _) as [tag|]; [|done].
        destruct (attrs tag !! "content"); [done|].
        by rewrite Hcases in Hret. }
      destruct Hin as (findings' & Heq & Hin). rewrite Heq in Hret.
      injection Hret as _ <-. by destruct findings'.
    + destruct Hcases as (findings' & Heq & Hne). rewrite Heq in Hret.
      by injection Hret as _ <-.
  - rewrite Hcases in Hret. by injection Hret as _ <-.
Qed.

Lemma requests_sent (W : World) (url : string) (s log : list string)
        (o : outcome (list string)) :
  get_installed_software_versions W url s = (log, o) ->
  log = (s ++ [url])%list
  \/ (log = (s ++ [url; urljoin W url "wp-includes/version.php"])%list
      /\ exists response findings,
           fetch W (length s) url = inl response
           /\ PyStr.contains "wp-content" (text response) = true
           /\ o = Return findings
           /\ In "WordPress site detected" findings).
Proof.
  pose proof (scraper_cases W url s) as Hcases. intros Hret.
  destruct (fetch W (length s) url) as [response|e0] eqn:Hfetch.
  - destruct (PyStr.contains "wp-content" (text response)) eqn:Hwp.
    + assert (Hin : get_installed_software_versions W url s
                    = ((s ++ [url])%list, Raise (KeyError "content"))
                    \/ exists findings',
                        get_installed_software_versions W url s
                        = ((s ++ [url; urljoin W url "wp-includes/version.php"])%list,
                           Return findings')
                        /\ In "WordPress site detected" findings').
      { destruct (find_generator_tag _) as [tag|]; [|by right].
        destruct (attrs tag !! "content"); [by right|by left]. }
      destruct Hin as [Heq|(findings' & Heq & Hin)]; rewrite Heq in Hret;
        injection Hret as <- <-; [by left|].
      right. split; [done|]. exists response, findings'. done.
    + destruct Hcases as (findings' & Heq & _). rewrite Heq in Hret.
      injection Hret as <- _. by left.
  - rewrite Hcases in Hret. injection Hret as <- _. by left.
Qed.

(** X9: the scraper raises a [KeyError] in one case only: the page was
    fetched, it holds [wp-content], and the first [meta] tag named exactly
    [generator] has no [content] attribute; the key is then [content], the
    subscript of line 119, and the page is the single request sent.  The
    two subscripts of the first loop are guarded and raise nothing. *)
Theorem scraper_key_error_iff (W : World) (url : string) (s log : list string)
        (key : string) :
  get_installed_software_versions W url s = (log, Raise (KeyError key))
  <-> key = "content" /\ log = (s ++ [url])%list
      /\ exists response tag,
           fetch W (length s) url = inl response
           /\ PyStr.contains "wp-content" (text response) = true
           /\ find_generator_tag (find_all_meta W (text response)) = Some tag
           /\ attrs tag !! "content" = None.
Proof.
  pose proof (scraper_cases W url s) as Hcases. split.
  - intros Hraise. destruct (fetch W (length s) url) as [response|e0];
      [|by rewrite Hcases in Hraise].
    destruct (PyStr.contains "wp-content" (text response)) eqn:Hwp;
      [|destruct Hcases as (findings & Heq & _); by rewrite Heq in Hraise].
    destruct (find_generator_tag _) as [tag|] eqn:Htag;
      [|destruct Hcases as (findings & Heq & _); by rewrite Heq in Hraise].
    destruct (attrs tag !! "content") eqn:Hcontent;
      [destruct Hcases as (findings & Heq & _); by rewrite Heq in Hraise|].
    rewrite Hcases in Hraise. injection Hraise as <- <-.
    repeat split. exists response, tag. done.
  - intros (-> & -> & response & tag & Hfetch & Hwp & Htag & Hcontent).
    by rewrite Hfetch, Hwp, Htag, Hcontent in Hcases.
Qed.

Lemma scraper_key_error_iff_witness :
  get_installed_software_versions Stub.bare_generator_page Stub.site []
  = ([Stub.site], Raise (KeyError "content")).
Proof.
  apply (scraper_key_error_iff Stub.bare_generator_page Stub.site []).
  split; [reflexivity|]. split; [reflexivity|].
  exists (mkResponse 200 Stub.bare_body), Stub.bare_generator_tag.
  repeat split; vm_compute; reflexivity.
Defined.

(** X10: the list the scraper returns is never empty: with nothing found it
    holds the sentence of line 137, and with the page out of reach, that of
    line 141. *)
Theorem scraper_findings_not_empty (W : World) (url : string)
        (s log : list string) (findings : list string) :
  get_installed_software_versions W url s = (log, Return findings) ->
  findings <> [].
Proof. apply findings_not_empty. Qed.

Lemma scraper_findings_not_empty_witness :
  ["Generator: WordPress 6.2"] <> ([] : list string).
Proof.
  apply (scraper_findings_not_empty Stub.generator_page Stub.site [] [Stub.site]).
  vm_compute. reflexivity.
Defined.

(** X11: the scraper sends one request, or two: the second one, for
    [wp-includes/version.php], only after a page fetched with success that
    holds [wp-content], and the findings then hold [WordPress site
    detected], whatever the second request answers. *)
Theorem scraper_requests (W : World) (url : string) (s log : list string)
        (o : outcome (list string)) :
  get_installed_software_versions W url s = (log, o) ->
  log = (s ++ [url])%list
  \/ (log = (s ++ [url; urljoin W url "wp-includes/version.php"])%list
      /\ exists response findings,
           fetch W (length s) url = inl response
           /\ PyStr.contains "wp-content" (text response) = true
           /\ o = Return findings
           /\ In "WordPress site detected" findings).
Proof. apply requests_sent. Qed.

Lemma scraper_requests_witness :
  [Stub.site; "http://example.com/wp-includes/version.php"] = ([] ++ [Stub.site])%list
  \/ ([Stub.site; "http://example.com/wp-includes/version.php"]
      = ([] ++ [Stub.site;
                urljoin Stub.wordpress Stub.site "wp-includes/version.php"])%list
      /\ exists response findings,
           fetch Stub.wordpress (length ([] : list string)) Stub.site = inl response
           /\ PyStr.contains "wp-content" (text response) = true
           /\ Return ["WordPress site detected";
                      "WordPress Version from wp-includes/version.php: 6.1.1"]
              = Return findings
           /\ In "WordPress site detected" findings).
Proof.
  apply (scraper_requests Stub.wordpress Stub.site []).
  vm_compute. reflexivity.
Defined.

(** X12: whatever [version.php] holds, the version the scraper reads from
    it holds no semicolon and no single quote, and has no white space at
    either end. *)
Theorem wp_version_is_stripped (body : string) (s s' : list string) (v : string) :
  wp_version body s = (s', Return v) ->
  PyStr.has_char ";" v = false
  /\ PyStr.has_char "'" v = false
  /\ PyStr.strip v = v.
Proof.
  unfold wp_version, bind, index, ret, raise.
  destruct (nth_error _ 0) as [line|]; [|done].
  destruct (nth_error _ 1) as [value|]; [|done].
  intros [= _ <-]. split; [|split].
  - unfold PyStr.strip.
    apply PyStrMore.has_char_rstrip, PyStrMore.has_char_lstrip,
      PyStrMore.has_char_remove, PyStrMore.has_char_remove_same.
  - unfold PyStr.strip.
    apply PyStrMore.has_char_rstrip, PyStrMore.has_char_lstrip,
      PyStrMore.has_char_remove_same.
  - apply PyStrMore.strip_idem.
Qed.

Lemma plain_no_char (v : string) (c : ascii) :
  Version.plain v = true -> Version.version_char c = false ->
  PyStr.has_char c v = false.
Proof. apply PyStrMore.all_chars_has_char. Qed.

(** The version is read from the first line that holds the marker. *)
Lemma wp_version_first_line (body line : string) (others s : list string) :
  List.filter (PyStr.contains "wp_version =") (PyStr.splitlines body)
  = line :: others ->
  wp_version body s
  = match nth_error (PyStr.split "=" line) 1 with
    | Some value =>
        (s, Return (PyStr.strip
                      (PyStr.remove_char "'"
                         (PyStr.remove_char ";" (PyStr.strip value)))))
    | None => (s, Raise IndexError)
    end.
Proof.
  intros Hfilter. unfold wp_version, bind, index, ret, raise.
  rewrite Hfilter. cbn [nth_error].
  by destruct (PyStr.split "=" line) as [|? [|? ?]].
Qed.

Lemma assignment_no_linebreak (v : string) :
  Version.plain v = true ->
  Url.all_chars (fun c => negb (PyStr.is_linebreak c)) (Version.assignment v) = true.
Proof.
  intros Hv. unfold Version.assignment. rewrite !PyStrMore.all_chars_app.
  apply andb_true_iff. split; [done|]. apply andb_true_iff. split; [|done].
  revert Hv. apply PyStrMore.all_chars_impl. intros c.
  unfold Version.version_char.
  intros [[[Hc _]%andb_true_iff _]%andb_true_iff _]%andb_true_iff.
  destruct (PyStr.is_linebreak c) eqn:E; [|done].
  apply PyStrMore.linebreak_isspace in E. by rewrite E in Hc.
Qed.

Lemma assignment_has_marker (v : string) :
  PyStr.contains "wp_version =" (Version.assignment v) = true.
Proof. apply (PyStrMore.contains_app "wp_version =" "$" (" '" ++ v ++ "';")). Qed.

(** What lines 127 and 128 make of the assignment line. *)
Lemma assignment_value (v : string) :
  Version.plain v = true ->
  nth_error (PyStr.split "=" (Version.assignment v)) 1
  = Some (" '" ++ v ++ "';")%string
  /\ PyStr.strip (PyStr.remove_char "'"
                    (PyStr.remove_char ";" (PyStr.strip (" '" ++ v ++ "';")))) = v.
Proof.
  intros Hv.
  assert (Hspace : Url.all_chars (fun c => negb (PyStr.isspace c)) v = true).
  { revert Hv. apply PyStrMore.all_chars_impl. intros c.
    unfold Version.version_char.
    by intros [[[? _]%andb_true_iff _]%andb_true_iff _]%andb_true_iff. }
  split.
  - change (Version.assignment v)
      with ("$wp_version " ++ String "=" (" '" ++ v ++ "';"))%string.
    rewrite PyStrMore.split_at_sep; [|done].
    rewrite PyStrMore.split_no_sep; [done|].
    rewrite !PyStrMore.has_char_app, (plain_no_char v "=" Hv); done.
  - assert (Hstrip : PyStr.strip (" '" ++ v ++ "';") = ("'" ++ v ++ "';")%string).
    { unfold PyStr.strip.
      change (PyStr.lstrip (" '" ++ v ++ "';")) with ("'" ++ v ++ "';")%string.
      change ("'" ++ v ++ "';")%string
        with ("'" ++ v ++ "'" ++ String ";" EmptyString)%string.
      rewrite <- !PyStrMore.append_assoc.
      by apply PyStrMore.rstrip_app_end. }
    rewrite Hstrip, !PyStrMore.remove_char_app.
    rewrite (PyStrMore.remove_char_absent ";" v), (PyStrMore.remove_char_absent "'" v);
      [|by apply plain_no_char|by apply plain_no_char].
    change (PyStr.strip ("" ++ v ++ "") = v).
    rewrite PyStrFacts.append_nil_r. unfold PyStr.strip.
    rewrite PyStrMore.lstrip_fixed.
    + by apply PyStrMore.rstrip_fixed.
    + destruct v as [|c v]; [done|]. simpl in *.
      apply andb_true_iff in Hspace as [Hc _]. by apply negb_true_iff.
Qed.

Lemma filter_none {A} (f : A -> bool) (l : list A) :
  (forall x, In x l -> f x = false) -> List.filter f l = [].
Proof.
  induction l as [|x l IH]; [done|]. intros Hall. simpl.
  rewrite (Hall x); [|by left]. apply IH. intros y Hy. apply Hall. by right.
Qed.

(** X13: from a [version.php] where the line [$wp_version = 'v';] comes
    first or after a line feed, is followed by nothing or by a line boundary,
    and is not preceded by the marker [wp_version =], the scraper reads the
    version [v], for a [v] written without white space, [=], [;] or quote. *)
Theorem wp_version_reads_file (before after v : string) (s : list string) :
  Version.plain v = true ->
  PyStr.contains "wp_version =" before = false ->
  before = EmptyString \/ (exists b, before = (b ++ PyStr.lf)%string) ->
  after = EmptyString
  \/ (exists c rest, after = String c rest /\ PyStr.is_linebreak c = true) ->
  wp_version (before ++ Version.assignment v ++ after) s = (s, Return v).
Proof.
  intros Hv Hbefore Hstart Hend.
  destruct (PyStrMore.splitlines_from_first (Version.assignment v) EmptyString after
              (assignment_no_linebreak v Hv) ltac:(done) Hend) as (lines & Hfirst).
  change ("" ++ Version.assignment v)%string with (Version.assignment v) in Hfirst.
  assert (Hfilter : exists others,
             List.filter (PyStr.contains "wp_version =")
                         (PyStr.splitlines (before ++ Version.assignment v ++ after))
             = Version.assignment v :: others).
  { unfold PyStr.splitlines. destruct Hstart as [->|(b & ->)].
    - change ("" ++ Version.assignment v ++ after)%string
        with (Version.assignment v ++ after)%string.
      rewrite Hfirst. cbn [List.filter]. rewrite assignment_has_marker. eauto.
    - rewrite PyStrMore.append_assoc.
      change (PyStr.lf ++ Version.assignment v ++ after)%string
        with (String "010" (Version.assignment v ++ after)).
      destruct (PyStrMore.splitlines_from_lf (String.length b) b EmptyString
                  (Version.assignment v ++ after)) as (early & -> & Hparts); [done|].
      rewrite Hfirst, List.filter_app, (filter_none _ early).
      + cbn [List.filter app]. rewrite assignment_has_marker. eauto.
      + intros l Hl. destruct (PyStr.contains "wp_version =" l) eqn:E; [|done].
        apply (Hparts _ _ Hl) in E.
        change ("" ++ b)%string with b in E.
        apply (PyStrMore.contains_app_r _ _ PyStr.lf) in E. congruence. }
  destruct Hfilter as (others & Hfilter).
  rewrite (wp_version_first_line _ _ _ _ Hfilter).
  destruct (assignment_value v Hv) as [-> Hvalue]. by rewrite Hvalue.
Qed.

Lemma wp_version_reads_file_witness :
  wp_version Stub.version_php [] = ([], Return "6.1.1").
Proof.
  apply (wp_version_reads_file ("<?php" ++ PyStr.lf)
           (PyStr.lf ++ "$wp_db_version = 53496;" ++ PyStr.lf) "6.1.1" []).
  - vm_compute. reflexivity.
  - vm_compute. reflexivity.
  - right. exists "<?php". reflexivity.
  - right. exists "010"%char, ("$wp_db_version = 53496;" ++ PyStr.lf)%string.
    split; reflexivity.
Defined.

Lemma wp_version_is_stripped_witness :
  PyStr.has_char ";" "6.1.1 ?>" = false
  /\ PyStr.has_char "'" "6.1.1 ?>" = false
  /\ PyStr.strip "6.1.1 ?>" = "6.1.1 ?>".
Proof.
  apply (wp_version_is_stripped "<?php $wp_version = '6.1.1'; ?>" [] [] "6.1.1 ?>").
  vm_compute. reflexivity.
Defined.

End ScraperMore.

(** ** The command line program *)

Module MainMore.
Import Py Crawl CrawlFacts TraceView Main.

Lemma rstrip_char_end (c : ascii) (s : string) :
  rstrip_char c (s ++ String c EmptyString) = rstrip_char c s.
Proof.
  induction s as [|a s IH].
  - simpl. by rewrite Ascii.eqb_refl.
  - rewrite PyStrFacts.append_cons. simpl. by rewrite IH.
Qed.

(** Every request raises: no answer, or a status 4xx or 5xx. *)
Lemma fetch_all_raise (W : World) :
  (forall n u, Spec.fetch_raises (requests_get W n u) = true) ->
  forall n u, exists e, fetch W n u = inr e.
Proof.
  intros Hall n u. pose proof (ProbeFacts.fetch_spec W n u) as Hspec.
  destruct (fetch W n u) as [r|e]; [|by eauto].
  destruct Hspec as [Hget Hok]. rewrite <- Hget, Hall in Hok. done.
Qed.

(** When the request for the seed raises, the crawl returns the seed alone. *)
Lemma run_seed_out_of_reach (W : World) (url : string) (depth : Z) (fuel : nat)
      (e : RequestException) :
  0 <= depth -> fetch W 0 url = inr e -> (2 <= fuel)%nat ->
  run W url depth fuel
  = Some {| visited := ∅ ∪ {[url]}; to_visit := []; clock := 1;
            trace := [EvVisit url 0; EvGet url 0] |}.
Proof.
  intros Hdepth Hfetch Hfuel. apply (loop_more_fuel W url depth 2); [|done].
  unfold loop, step, init. simpl.
  replace (bool_decide (url ∈ (∅ : gset string))) with false
    by (symmetry; apply bool_decide_eq_false; set_solver).
  replace (depth <? 0) with false by lia. simpl. by rewrite Hfetch.
Qed.

(** The body of the [try], once the crawl has ended in [st]: the probes
    raise nothing, so that the lines up to [Identifying software versions...]
    are printed, and the scraper is called after the requests of the crawl
    and the nine requests of the probes. *)
Lemma scan_after_crawl (W : World) (target : string) (depth : Z) (fuel : nat)
      (st : state) :
  run W target depth fuel = Some st ->
  exists body,
    last body = Some (PyStr.lf ++ "Identifying software versions...")%string
    /\ (forall line, In line body -> line <> "Software Version Information:")
    /\ body !! 0%nat = Some ("Scanning " ++ target ++ "...")%string
    /\ body !! 2%nat = Some ("Found " ++ str_of_nat (size (visited st))
                                   ++ " URLs during crawling.")%string
    /\ scan W target depth fuel
       = match Scraper.get_installed_software_versions W target
                 (requested (trace st)
                    ++ List.map (urljoin W target) Probe.env_paths
                    ++ List.map (urljoin W target) Probe.admin_paths)%list with
         | (log, Return version_info) =>
             Some ((body ++ "Software Version Information:"
                         :: bullets version_info)%list, log, None)
         | (log, Raise e) => Some (body, log, Some e)
         end.
Proof.
  intros Hrun. unfold scan. rewrite Hrun.
  unfold Probe.check_env_files, Probe.check_admin_panels.
  rewrite ProbeFacts.env_loop_spec, ProbeFacts.admin_loop_spec.
  rewrite <- app_assoc.
  set (env_files := ([] ++ _)%list). set (admin_panels := ([] ++ _)%list).
  clearbody env_files admin_panels.
  eexists. split; [|split; [|split; [|split]]]; cycle 4.
  - destruct (Scraper.get_installed_software_versions _ _ _) as [log [v|e]];
      reflexivity.
  - rewrite !app_assoc. apply last_snoc.
  - assert (Hbullets : forall items line,
               In line (bullets items) -> line <> "Software Version Information:").
    { intros items line (item & <- & _)%in_map_iff. done. }
    intros line Hin.
    repeat (apply in_app_or in Hin as [Hin|Hin]).
    + simpl in Hin. by destruct Hin as [<-|[<-|[<-|[<-|[]]]]].
    + destruct env_files; simpl in Hin.
      * destruct Hin as [<-|[]]. done.
      * destruct Hin as [<-|Hin]; [done|]. by apply (Hbullets (s :: env_files)).
    + destruct Hin as [<-|[]]. done.
    + destruct admin_panels; simpl in Hin.
      * destruct Hin as [<-|[]]. done.
      * destruct Hin as [<-|Hin]; [done|]. by apply (Hbullets (s :: admin_panels)).
    + destruct Hin as [<-|[]]. done.
  - done.
  - done.
Qed.

(** X14: any number of slashes at the end of the target is taken off
    before the scan: the run on [u/] is the run on [u]. *)
Theorem trailing_slash_ignored (W : World) (can_open : string -> bool)
        (u : string) (depth : Z) (out : option string) (v : bool) (fuel : nat) :
  main W can_open (mkArgs (u ++ "/") depth out v) fuel
  = main W can_open (mkArgs u depth out v) fuel.
Proof. unfold main. simpl. by rewrite rstrip_char_end. Qed.

(** X15: how the report ends.  When nothing was caught it ends with the
    heading [Software Version Information:], not printed before, followed
    by at least one finding.  When the [KeyError] of the scraper was
    caught, the last line printed is [Identifying software versions...]
    and the heading was never printed. *)
Theorem report_last_lines (W : World) (target : string) (depth : Z)
        (fuel : nat) (out log : list string) (e : option exn) :
  scan W target depth fuel = Some (out, log, e) ->
  (e = None ->
   exists body findings,
     out = (body ++ "Software Version Information:" :: bullets findings)%list
     /\ findings <> []
     /\ ~ In "Software Version Information:" body)
  /\ (e = Some (KeyError "content") ->
      last out = Some (PyStr.lf ++ "Identifying software versions...")%string
      /\ ~ In "Software Version Information:" out).
Proof.
  intros Hscan.
  destruct (run W target depth fuel) as [st|] eqn:Hrun;
    [|unfold scan in Hscan; by rewrite Hrun in Hscan].
  destruct (scan_after_crawl W target depth fuel st Hrun)
    as (body & Hlast & Hnone & _ & _ & Heq).
  rewrite Heq in Hscan. clear Heq.
  assert (Hbody : ~ In "Software Version Information:" body).
  { intros Hin. by apply (Hnone _ Hin). }
  destruct (Scraper.get_installed_software_versions _ _ _) as [log' [v|e']] eqn:Hgiv;
    injection Hscan as <- <- <-.
  - split; [|done].
    intros _. exists body, v. split; [done|]. split; [|done].
    by apply (ScraperMore.findings_not_empty _ _ _ _ _ Hgiv).
  - split; [done|]. intros _. done.
Qed.

Lemma report_last_lines_witness :
  (exists body findings,
     ["Scanning http://example.com...";
        (PyStr.lf ++ "Crawling website...")%string;
        "Found 1 URLs during crawling.";
        (PyStr.lf ++ "Checking for .env files...")%string;
        "No exposed .env files found.";
        (PyStr.lf ++ "Checking for common admin panels...")%string;
        "No common admin panels found.";
        (PyStr.lf ++ "Identifying software versions...")%string;
        "Software Version Information:";
        "- Error fetching page."]
     = (body ++ "Software Version Information:" :: bullets findings)%list
     /\ findings <> []
     /\ ~ In "Software Version Information:" body)
  /\ last Stubs2.broken_lines
     = Some (PyStr.lf ++ "Identifying software versions...")%string
  /\ ~ In "Software Version Information:" Stubs2.broken_lines.
Proof.
  split.
  - apply (report_last_lines Stubs2.out_of_reach Stubs2.target 3 2
             ["Scanning http://example.com...";
                (PyStr.lf ++ "Crawling website...")%string;
                "Found 1 URLs during crawling.";
                (PyStr.lf ++ "Checking for .env files...")%string;
                "No exposed .env files found.";
                (PyStr.lf ++ "Checking for common admin panels...")%string;
                "No common admin panels found.";
                (PyStr.lf ++ "Identifying software versions...")%string;
                "Software Version Information:";
                "- Error fetching page."]
             Stubs2.broken_requests None);
      [vm_compute|]; reflexivity.
  - apply (report_last_lines Stubs2.broken_wordpress Stubs2.target 3 3
             Stubs2.broken_lines Stubs2.broken_requests (Some (KeyError "content")));
      [vm_compute|]; reflexivity.
Defined.



(** X17: on a host out of reach, where every request raises, the report of
    a scan with a bound that is not negative is fixed: one URL found (the
    target, counted though it was not fetched), no exposed file, no admin
    panel, and the single finding [Error fetching page.]; eleven requests
    were sent. *)
Theorem report_out_of_reach (W : World) (can_open : string -> bool)
        (args : Args) (fuel : nat) :
  (forall n u, Spec.fetch_raises (requests_get W n u) = true) ->
  0 <= crawl_depth args ->
  output_path args = None ->
  (2 <= fuel)%nat ->
  main W can_open args fuel
  = Some {| console :=
              [("Scanning " ++ rstrip_char "/" (target_url args) ++ "...")%string;
               (PyStr.lf ++ "Crawling website...")%string;
               "Found 1 URLs during crawling.";
               (PyStr.lf ++ "Checking for .env files...")%string;
               "No exposed .env files found.";
               (PyStr.lf ++ "Checking for common admin panels...")%string;
               "No common admin panels found.";
               (PyStr.lf ++ "Identifying software versions...")%string;
               "Software Version Information:";
               "- Error fetching page."];
            file := None;
            requests :=
              (rstrip_char "/" (target_url args)
                 :: List.map (urljoin W (rstrip_char "/" (target_url args)))
                             Probe.env_paths
                 ++ List.map (urljoin W (rstrip_char "/" (target_url args)))
                             Probe.admin_paths
                 ++ [rstrip_char "/" (target_url args)])%list;
            console_closed := false;
            failure := None |}.
Proof.
  intros Hall Hdepth Hout Hfuel. unfold main. rewrite Hout.
  set (target := rstrip_char "/" (target_url args)).
  destruct (fetch_all_raise W Hall 0 target) as [e0 He0].
  unfold scan. rewrite (run_seed_out_of_reach W target _ fuel e0 Hdepth He0 Hfuel).
  cbn [visited trace requested].
  rewrite union_empty_l_L, size_singleton.
  unfold Probe.check_env_files, Probe.check_admin_panels.
  rewrite ProbeFacts.env_loop_spec, ProbeFacts.admin_loop_spec.
  rewrite !(ProbeMore.no_answer_no_hit _ W target _ _); try done.
  - cbn [fmap list_fmap app].
    set (s := (target :: List.map (urljoin W target) Probe.env_paths
                 ++ List.map (urljoin W target) Probe.admin_paths)%list).
    pose proof (ScraperMore.scraper_cases W target s) as Hcases.
    destruct (fetch_all_raise W Hall (length s) target) as [e1 He1].
    rewrite He1 in Hcases. rewrite Hcases. subst s.
    cbn [bullets List.map fmap option_fmap option_map].
    repeat f_equal; rewrite <- ?app_assoc; done.
  - intros a. unfold Spec.admin_hit. by intros [?%negb_true_iff _]%andb_true_iff.
  - intros a. unfold Spec.env_hit. by intros [?%negb_true_iff _]%andb_true_iff.
Qed.

Lemma report_out_of_reach_witness :
  main Stubs2.out_of_reach (fun _ => true)
       (mkArgs "http://example.com/" 3 None false) 2
  = Some {| console :=
              ["Scanning http://example.com...";
               (PyStr.lf ++ "Crawling website...")%string;
               "Found 1 URLs during crawling.";
               (PyStr.lf ++ "Checking for .env files...")%string;
               "No exposed .env files found.";
               (PyStr.lf ++ "Checking for common admin panels...")%string;
               "No common admin panels found.";
               (PyStr.lf ++ "Identifying software versions...")%string;
               "Software Version Information:";
               "- Error fetching page."];
            file := None;
            requests :=
              ["http://example.com";
               "http://example.com/.env"; "http://example.com/.env.example";
               "http://example.com/config/.env";
               "http://example.com/application/.env";
               "http://example.com/admin"; "http://example.com/administrator";
               "http://example.com/login"; "http://example.com/wp-admin";
               "http://example.com/panel";
               "http://example.com"];
            console_closed := false;
            failure := None |}.
Proof.
  apply (report_out_of_reach Stubs2.out_of_reach (fun _ => true)
           (mkArgs "http://example.com/" 3 None false) 2);
    (done || lia).
Defined.

(** X18: the scan ends for every world and every target: some bound on
    the turns of the crawl gives a report, and any larger bound gives the
    same one. *)
Theorem main_ends (W : World) (can_open : string -> bool) (args : Args) :
  exists fuel report,
    forall fuel', (fuel <= fuel')%nat -> main W can_open args fuel' = Some report.
Proof.
  destruct (run_ends W (rstrip_char "/" (target_url args)) (crawl_depth args))
    as (fuel & st & Hrun).
  assert (Hscan : exists r, forall fuel', (fuel <= fuel')%nat ->
             scan W (rstrip_char "/" (target_url args)) (crawl_depth args) fuel'
             = Some r).
  { destruct (scan W (rstrip_char "/" (target_url args)) (crawl_depth args) fuel)
      as [r|] eqn:E.
    - exists r. intros fuel' Hle. unfold scan in *.
      rewrite (Hrun fuel' Hle). by rewrite (Hrun fuel) in E.
    - unfold scan in E. rewrite (Hrun fuel) in E; [|done].
      destruct (Probe.check_env_files _ _ _) as [? [?|?]]; [|done].
      destruct (Probe.check_admin_panels _ _ _) as [? [?|?]]; [|done].
      by destruct (Scraper.get_installed_software_versions _ _ _) as [? [?|?]]. }
  destruct Hscan as ([[out log] e] & Hscan).
  unfold main. destruct (output_path args) as [path|].
  - destruct (can_open path).
    + exists fuel. eexists. intros fuel' Hle. by rewrite (Hscan fuel' Hle).
    + exists fuel. eexists. done.
  - exists fuel. eexists. intros fuel' Hle. by rewrite (Hscan fuel' Hle).
Qed.

End MainMore.
